(** * The command registry of [src/ui/commands.ts]

    A shallow embedding of the [CommandRegistry] class: the private
    [commands] map is an insertion-ordered association list (the iteration
    order of a JavaScript [Map]), the methods are state-passing functions
    over a [World] holding the map, the console and the state owned by the
    handlers' closures, and the asynchronous [execute] returns the settled
    state of the promise it produces. *)

From Stdlib Require Import String Ascii List Bool Arith Lia Sorted.
From Stdlib Require DecimalString.
Import ListNotations.
Open Scope string_scope.

Set Implicit Arguments.

(** ** JavaScript strings *)

(** The line feed written [\n] in the source. *)
Definition LF : string := String (ascii_of_nat 10) EmptyString.

(** The double quote character of the source's template literals. *)
Definition DQ : string := String (ascii_of_nat 34) EmptyString.

(** [Array.prototype.join] on an array of strings. *)
Fixpoint join (sep : string) (xs : list string) : string :=
  match xs with
  | [] => EmptyString
  | x :: rest =>
      match rest with
      | [] => x
      | _ :: _ => x ++ sep ++ join sep rest
      end
  end.

(** [String.prototype.startsWith]. *)
Fixpoint startsWith (s sub : string) {struct sub} : bool :=
  match sub, s with
  | EmptyString, _ => true
  | String _ _, EmptyString => false
  | String c sub', String d s' => Ascii.eqb c d && startsWith s' sub'
  end.

(** [String.prototype.includes]: [sub] occurs somewhere in [s]. *)
Fixpoint includes (s sub : string) : bool :=
  startsWith s sub
  || match s with
     | EmptyString => false
     | String _ s' => includes s' sub
     end.

(** Truthiness of a string in a condition: only the empty string is falsy. *)
Definition truthy (s : string) : bool := negb (s =? EmptyString).

(** Truthiness of an optional string ([undefined] is falsy). *)
Definition truthy_opt (s : option string) : bool :=
  match s with
  | Some s => truthy s
  | None => false
  end.

(** ** The insertion-ordered [Map<string, V>] *)

Section JsMap.
Variable V : Type.

(** Entries in iteration order, oldest insertion first. *)
Definition Map : Type := list (string * V).

Fixpoint Map_get (k : string) (m : Map) : option V :=
  match m with
  | [] => None
  | (k', v) :: rest => if k =? k' then Some v else Map_get k rest
  end.

Definition Map_has (k : string) (m : Map) : bool :=
  match Map_get k m with
  | Some _ => true
  | None => false
  end.

(** [set] on a present key overwrites the value where the key already
    stands; on an absent key it appends the entry. *)
Fixpoint Map_set (k : string) (v : V) (m : Map) : Map :=
  match m with
  | [] => [(k, v)]
  | (k', v') :: rest =>
      if k =? k' then (k, v) :: rest else (k', v') :: Map_set k v rest
  end.

(** [delete] drops the entry of the key; its boolean result is
    [Map_has] on the map before. *)
Fixpoint Map_delete (k : string) (m : Map) : Map :=
  match m with
  | [] => []
  | (k', v') :: rest =>
      if k =? k' then rest else (k', v') :: Map_delete k rest
  end.

Definition Map_keys (m : Map) : list string := List.map fst m.

Definition Map_entries (m : Map) : list (string * V) := m.

(** A [Map] holds each key once. *)
Definition MapOK (m : Map) : Prop := NoDup (Map_keys m).
End JsMap.

(** ** Data model *)

(** [interface CommandMetadata]; every field is optional. *)
Record CommandMetadata : Type := {
  description : option string;
  usage : option string;
  examples : option (list string)
}.

(** What the host supplies: the values other than the [Error] objects
    whose [message] is a string, the function objects used as handlers,
    and the state the handlers' closures own. *)
Class Host : Type := {
  Other : Type;
  Handler : Type;
  Store : Type
}.

Section Model.
Context `{Host}.

(** A value of type [unknown]: [VError message] is an [Error] object whose
    [message] is the string [message], as [new Error(message)] makes it;
    [VOther o] is any other value, be it a primitive, an object, or an
    instance of [Error] whose [message] is not a plain string. *)
Inductive Value : Type :=
| VError (message : string)
| VOther (o : Other).

(** [interface CommandEntry]. *)
Record CommandEntry : Type := {
  handler : Handler;
  metadata : option CommandMetadata
}.

(** An entry of a [CommandPlugin] object: a bare function or a
    [{ handler, metadata? }] object. *)
Inductive PluginCommand : Type :=
| Bare (h : Handler)
| WithMetadata (h : Handler) (m : option CommandMetadata).

(** A [CommandPlugin] as [Object.entries] enumerates it. *)
Definition CommandPlugin : Type := list (string * PluginCommand).

(** The registry object together with what its methods and the handlers
    can affect. *)
Record World : Type := {
  commands : Map CommandEntry;
  console : list string;
  store : Store
}.

Definition with_commands (m : Map CommandEntry) (w : World) : World :=
  {| commands := m; console := console w; store := store w |}.

Definition with_console (c : list string) (w : World) : World :=
  {| commands := commands w; console := c; store := store w |}.

(** [new CommandRegistry()]. *)
Definition new_registry (s : Store) : World :=
  {| commands := []; console := []; store := s |}.

(** How a synchronous call ends. *)
Inductive Completion (A : Type) : Type :=
| Normal (a : A)
| Throw (v : Value).
Arguments Throw {A} v.

(** The final state of a promise; [Pending] is a promise that never
    settles. *)
Inductive Promise : Type :=
| Fulfilled (v : Value)
| Rejected (reason : Value)
| Pending.

(** What a handler hands back: [TReturn | Promise<TReturn>]. *)
Inductive Returned : Type :=
| Plain (v : Value)
| Thenable (p : Promise).

(** A method body: it runs on the world and completes. *)
Definition Js (A : Type) : Type := World -> Completion A * World.

Definition ret {A : Type} (a : A) : Js A := fun w => (Normal a, w).

Definition bind {A B : Type} (m : Js A) (k : A -> Js B) : Js B :=
  fun w =>
    match m w with
    | (Normal a, w') => k a w'
    | (Throw v, w') => (Throw v, w')
    end.

(** [throw v]. *)
Definition throw {A : Type} (v : Value) : Js A := fun w => (Throw v, w).

(** [await e] inside [try]: the value to continue with, the reason to
    catch, or no continuation at all. *)
Definition await (c : Completion Returned) : Promise :=
  match c with
  | Normal (Plain v) => Fulfilled v
  | Normal (Thenable p) => p
  | Throw v => Rejected v
  end.
End Model.

Arguments Throw {_ A} v.
Arguments Normal {_ A} a.

Declare Scope js_scope.
Delimit Scope js_scope with js.
Notation "x <- m ;; k" := (bind m (fun x => k))
  (at level 61, m at next level, right associativity) : js_scope.
Notation "m ;; k" := (bind m (fun _ => k))
  (at level 61, right associativity) : js_scope.

(** The code of the caller that the registry runs.

    Calling a function object: the handler runs on the world, where it
    may use the registry's public methods and its own state, and
    completes. A call is taken whole, up to the settlement of the promise
    it returns: no other caller of the registry is interleaved with it.

    Putting a value [v] that is not a plain [Error] into text:
    [v instanceof Error] walks the prototypes of [v], the template literal
    reads [v.message] and converts it to a string, and [String(v)] calls
    the [toString] of [v]. Each of the three runs code of the value, on
    the world, and may throw instead of giving its result. *)
Class Runtime `{Host} : Type := {
  call : Handler -> list Value -> World -> Completion Returned * World;
  js_instanceof_Error : Other -> Js bool;
  js_message : Other -> Js string;
  js_String : Other -> Js string
}.

(** ** The [CommandRegistry] class *)

Section Registry.
Context `{Runtime}.
Local Open Scope js_scope.

(** *** The private field [commands] and the console *)

Definition commands_has (name : string) : Js bool :=
  fun w => (Normal (Map_has name (commands w)), w).

Definition commands_get (name : string) : Js (option CommandEntry) :=
  fun w => (Normal (Map_get name (commands w)), w).

Definition commands_set (name : string) (entry : CommandEntry) : Js unit :=
  fun w => (Normal tt, with_commands (Map_set name entry (commands w)) w).

Definition commands_delete (name : string) : Js bool :=
  fun w => (Normal (Map_has name (commands w)),
            with_commands (Map_delete name (commands w)) w).

Definition commands_clear : Js unit :=
  fun w => (Normal tt, with_commands [] w).

Definition commands_keys : Js (list string) :=
  fun w => (Normal (Map_keys (commands w)), w).

Definition commands_entries : Js (list (string * CommandEntry)) :=
  fun w => (Normal (Map_entries (commands w)), w).

Definition console_warn (line : string) : Js unit :=
  fun w => (Normal tt, with_console (console w ++ [line]) w).

(** *** Methods *)

(** The warning [register] prints when it overwrites. *)
Definition overwrite_warning (name : string) : string :=
  "Command " ++ DQ ++ name ++ DQ ++ " is already registered. Overwriting...".

Definition register (name : string) (handler : Handler)
    (metadata : option CommandMetadata) : Js unit :=
  present <- commands_has name ;;
  (if present
   then console_warn (overwrite_warning name)
   else ret tt) ;;
  commands_set name (Build_CommandEntry handler metadata).

Fixpoint plugin (pluginName : string) (commands : CommandPlugin) : Js unit :=
  match commands with
  | [] => ret tt
  | (commandName, command) :: rest =>
      let fullName := pluginName ++ ":" ++ commandName in
      match command with
      | Bare f => register fullName f None
      | WithMetadata h m => register fullName h m
      end ;;
      plugin pluginName rest
  end.

Definition has (name : string) : Js bool := commands_has name.

Definition getMetadata (name : string) : Js (option CommandMetadata) :=
  command <- commands_get name ;;
  ret match command with
      | Some command => metadata command
      | None => None
      end.

(** [list()]. *)
Definition list_ : Js (list string) := commands_keys.

(** [getAll()]; the object [{ name, metadata }] is the pair
    [(name, metadata)]. *)
Definition getAll : Js (list (string * option CommandMetadata)) :=
  entries <- commands_entries ;;
  ret (List.map (fun '(name, entry) => (name, metadata entry)) entries).

Definition unregister (name : string) : Js bool := commands_delete name.

Definition clear : Js unit := commands_clear.


(** [error instanceof Error ? error.message : String(error)] inside the
    template literal of the [catch] block: a plain [Error] gives its
    message; on any other value the test runs first, then the reading of
    [message] or the call of [String]. *)
Definition error_text (error : Value) : Js string :=
  match error with
  | VError message => ret message
  | VOther o =>
      is_error <- js_instanceof_Error o ;;
      if is_error then js_message o else js_String o
  end.

(** [async execute(name, ...args)]: the promise it returns, settled, and
    the world afterwards. The handler runs once the entry is found; its
    completion is awaited inside [try]; the [catch] block puts the failure
    into text and throws the new [Error], unless putting it into text
    throws first. *)
Definition execute (name : string) (args : list Value)
    : World -> Promise * World :=
  fun w =>
    match Map_get name (commands w) with
    | None =>
        match list_ w with
        | (Normal names, w') =>
            (Rejected (VError ("Command " ++ DQ ++ name ++ DQ
                               ++ " not found. Available commands: "
                               ++ join ", " names)), w')
        | (Throw v, w') => (Rejected v, w')
        end
    | Some command =>
        let (completion, w') := call (handler command) args w in
        match await completion with
        | Fulfilled result => (Fulfilled result, w')
        | Rejected error =>
            match error_text error w' with
            | (Normal text, w'') =>
                (Rejected (VError ("Error executing command " ++ DQ ++ name
                                   ++ DQ ++ ": " ++ text)), w'')
            | (Throw v, w'') => (Rejected v, w'')
            end
        | Pending => (Pending, w')
        end
    end.

(** The branch [if (name)] of [help]. *)
Definition help_command (name : string) : Js string :=
  command <- commands_get name ;;
  match command with
  | None => ret ("Command " ++ DQ ++ name ++ DQ ++ " not found.")
  | Some command =>
      match metadata command with
      | None => ret ("Command: " ++ name ++ LF ++ "No metadata available.")
      | Some metadata =>
          let help := "Command: " ++ name ++ LF in
          let help :=
            match description metadata with
            | Some d =>
                if truthy d then help ++ "Description: " ++ d ++ LF else help
            | None => help
            end in
          let help :=
            match usage metadata with
            | Some u => if truthy u then help ++ "Usage: " ++ u ++ LF else help
            | None => help
            end in
          let help :=
            match examples metadata with
            | Some ((_ :: _) as exs) =>
                help ++ "Examples:" ++ LF
                ++ join LF (List.map (fun ex => "  " ++ ex) exs) ++ LF
            | _ => help
            end in
          ret help
      end
  end.

(** One turn of the loop over [allCommands]. *)
Definition help_line (help : string)
    (command : string * option CommandMetadata) : string :=
  let '(name, metadata) := command in
  let help := help ++ "  " ++ name in
  let help :=
    match metadata with
    | Some metadata =>
        match description metadata with
        | Some d => if truthy d then help ++ " - " ++ d else help
        | None => help
        end
    | None => help
    end in
  help ++ LF.

(** The rest of [help], for all commands. *)
Definition help_all : Js string :=
  allCommands <- getAll ;;
  match allCommands with
  | [] => ret "No commands registered."
  | _ :: _ =>
      ret (fold_left help_line allCommands
             ("Available commands:" ++ LF ++ LF))
  end.

Definition help (name : option string) : Js string :=
  match name with
  | Some name => if truthy name then help_command name else help_all
  | None => help_all
  end.
End Registry.

(** ** Histories of calls on one registry *)

Section Histories.
Context `{Runtime}.

(** A call of a public method. *)
Inductive Operation : Type :=
| OpRegister (name : string) (handler : Handler)
    (metadata : option CommandMetadata)
| OpPlugin (pluginName : string) (commands : CommandPlugin)
| OpExecute (name : string) (args : list Value)
| OpHas (name : string)
| OpGetMetadata (name : string)
| OpList
| OpGetAll
| OpUnregister (name : string)
| OpClear
| OpHelp (name : option string).

(** The world after the call. *)
Definition perform (op : Operation) (w : World) : World :=
  match op with
  | OpRegister name handler metadata => snd (register name handler metadata w)
  | OpPlugin pluginName commands => snd (plugin pluginName commands w)
  | OpExecute name args => snd (execute name args w)
  | OpHas name => snd (has name w)
  | OpGetMetadata name => snd (getMetadata name w)
  | OpList => snd (list_ w)
  | OpGetAll => snd (getAll w)
  | OpUnregister name => snd (unregister name w)
  | OpClear => snd (clear w)
  | OpHelp name => snd (help name w)
  end.

(** The worlds a program can bring a fresh registry to. *)
Inductive reachable : World -> Prop :=
| reachable_new (s : Store) : reachable (new_registry s)
| reachable_step (op : Operation) (w : World) :
    reachable w -> reachable (perform op w).

(** The code of the caller (the handlers, and the code of the values they
    throw, which runs when a value is put into text) reaches the private
    map through the public methods only, so it keeps a map a map. *)
Definition handlers_keep_map : Prop :=
  (forall (h : Handler) (args : list Value) (w : World),
     MapOK (commands w) -> MapOK (commands (snd (call h args w))))
  /\ (forall (o : Other) (w : World),
        MapOK (commands w) ->
        MapOK (commands (snd (js_instanceof_Error o w)))
        /\ MapOK (commands (snd (js_message o w)))
        /\ MapOK (commands (snd (js_String o w)))).

(** The calls that write the map. *)
Inductive Mutation : Type :=
| MRegister (name : string) (handler : Handler)
    (metadata : option CommandMetadata)
| MPlugin (pluginName : string) (commands : CommandPlugin)
| MUnregister (name : string)
| MClear.

Definition mutate (op : Mutation) (w : World) : World :=
  match op with
  | MRegister name handler metadata => snd (register name handler metadata w)
  | MPlugin pluginName commands => snd (plugin pluginName commands w)
  | MUnregister name => snd (unregister name w)
  | MClear => snd (clear w)
  end.

Definition run (ops : list Mutation) (w : World) : World :=
  fold_left (fun w op => mutate op w) ops w.
End Histories.

(** ** The specification's vocabulary *)

Section Vocabulary.
Context `{Host}.

(** The handler and the metadata of a plugin entry; a bare handler has no
    metadata. *)
Definition handler_of (command : PluginCommand) : Handler :=
  match command with
  | Bare f => f
  | WithMetadata h _ => h
  end.

Definition metadata_of (command : PluginCommand) : option CommandMetadata :=
  match command with
  | Bare _ => None
  | WithMetadata _ m => m
  end.

(** The composite name of a plugin command. *)
Definition composite (pluginName shortName : string) : string :=
  pluginName ++ ":" ++ shortName.

(** What a history does to the registry, one name at a time. *)
Inductive Event : Type :=
| ERegister (name : string) (handler : Handler)
    (metadata : option CommandMetadata)
| EUnregister (name : string)
| EClear.

Definition events_of (op : Mutation) : list Event :=
  match op with
  | MRegister name handler metadata => [ERegister name handler metadata]
  | MPlugin pluginName commands =>
      List.map (fun '(shortName, command) =>
                  ERegister (composite pluginName shortName)
                    (handler_of command) (metadata_of command))
        commands
  | MUnregister name => [EUnregister name]
  | MClear => [EClear]
  end.

Definition history (ops : list Mutation) : list Event :=
  flat_map events_of ops.

(** What one event at the moment [clock] does to the moment since which
    [name] has been registered: a first registration starts it, a
    registration of a name already present leaves it alone, a removal
    ends it. *)
Definition stamp (clock : nat) (event : Event) (name : string)
    (since : option nat) : option nat :=
  match event with
  | ERegister n _ _ =>
      if n =? name
      then match since with
           | Some t => Some t
           | None => Some clock
           end
      else since
  | EUnregister n => if n =? name then None else since
  | EClear => None
  end.

(** The moment since which [name] has been registered without
    interruption, after the events, the first of which happens at
    [clock]. *)
Fixpoint registered_since (clock : nat) (events : list Event)
    (name : string) (since : option nat) : option nat :=
  match events with
  | [] => since
  | event :: later =>
      registered_since (S clock) later name (stamp clock event name since)
  end.

Definition registration_time (events : list Event) (name : string)
    : option nat :=
  registered_since 0 events name None.

(** Both names are registered, the first one earlier. *)
Definition earlier (a b : option nat) : Prop :=
  match a, b with
  | Some x, Some y => x < y
  | _, _ => False
  end.

(** The metadata on record for [name]: that of the most recent
    registration of the name, nothing once the name is removed. *)
Fixpoint recorded (events : list Event) (name : string)
    (current : option CommandMetadata) : option CommandMetadata :=
  match events with
  | [] => current
  | event :: later =>
      recorded later name
        match event with
        | ERegister n _ m => if n =? name then m else current
        | EUnregister n => if n =? name then None else current
        | EClear => None
        end
  end.

(** Whether [name] is registered after the events. *)
Fixpoint registered (events : list Event) (name : string)
    (current : bool) : bool :=
  match events with
  | [] => current
  | event :: later =>
      registered later name
        match event with
        | ERegister n _ _ => if n =? name then true else current
        | EUnregister n => if n =? name then false else current
        | EClear => false
        end
  end.

(** One turn of the loop of [plugin], as the specification words it:
    [register] under the composite name, with the handler and the
    metadata of the entry. *)
Definition register_entry (pluginName : string) (w : World)
    (entry : string * PluginCommand) : World :=
  snd (register (composite pluginName (fst entry))
         (handler_of (snd entry)) (metadata_of (snd entry)) w).

(** What an event does to the map. *)
Definition apply_event (event : Event) (m : Map CommandEntry)
    : Map CommandEntry :=
  match event with
  | ERegister name handler metadata =>
      Map_set name (Build_CommandEntry handler metadata) m
  | EUnregister name => Map_delete name m
  | EClear => []
  end.

(** The map [m] and the moments [since], at the moment [clock]. *)
Record ordered (m : Map CommandEntry) (since : string -> option nat)
    (clock : nat) : Prop := {
  ordered_map : MapOK m;
  ordered_names : forall n, In n (Map_keys m) <-> since n <> None;
  ordered_past : forall n t, since n = Some t -> t < clock;
  ordered_sorted :
    StronglySorted (fun a b => earlier (since a) (since b)) (Map_keys m)
}.

(** The metadata the map holds for a name now. *)
Definition metadata_now (w : World) (name : string)
    : option CommandMetadata :=
  match Map_get name (commands w) with
  | Some command => metadata command
  | None => None
  end.
End Vocabulary.

(** A text made of lines, each closed by a line feed. *)
Fixpoint unlines (lines : list string) : string :=
  match lines with
  | [] => EmptyString
  | line :: rest => line ++ LF ++ unlines rest
  end.

(** A labelled line for a field that is set and not empty. *)
Definition field_line (label : string) (field : option string) : list string :=
  match field with
  | Some text => if text =? EmptyString then [] else [label ++ text]
  | None => []
  end.

(** The examples block: its heading, then each example indented. *)
Definition examples_block (examples : option (list string)) : list string :=
  match examples with
  | Some ((_ :: _) as exs) => "Examples:" :: List.map (fun ex => "  " ++ ex) exs
  | _ => []
  end.

(** The lines of the help of one command with metadata. *)
Definition command_lines (name : string) (md : CommandMetadata) : list string :=
  ["Command: " ++ name]
  ++ field_line "Description: " (description md)
  ++ field_line "Usage: " (usage md)
  ++ examples_block (examples md).

(** The inline suffix of a command in the overview. *)
Definition description_suffix (md : option CommandMetadata) : string :=
  match md with
  | Some md =>
      match description md with
      | Some d => if d =? EmptyString then EmptyString else " - " ++ d
      | None => EmptyString
      end
  | None => EmptyString
  end.

(** ** A concrete host *)

(** Some values. The primitives: numbers are the naturals, which [String]
    prints in plain decimal. The objects:
    - [PBare] is [Object.create(null)], which has no [toString];
    - [PSelfThrower] is an object [o] with [toString() { throw o }];
    - [PClearer text] is an object with
      [toString() { clear(); return text }];
    - [PSymbolError] is an [Error] whose [message] is a symbol. *)
Inductive Prim : Type :=
| PUndefined
| PNaN
| PNumber (n : nat)
| PString (s : string)
| PBare
| PSelfThrower
| PClearer (text : string)
| PSymbolError.

(** Some handlers:
    - [Add] is [(a, b) => a + b] and [Multiply] is [(a, b) => a * b];
    - [AsyncFirst] is [async (x) => x];
    - [Count] is [() => { calls++ }], on the counter in the store;
    - [ThrowError message] is [() => { throw new Error(message) }];
    - [ThrowValue p] is [() => { throw p }];
    - [RejectWith p] is [() => Promise.reject(p)];
    - [DropThenThrow name message] is
      [() => { unregister(name); throw new Error(message) }];
    - [Never] is [() => new Promise(() => {})]. *)
Inductive DemoHandler : Type :=
| Add
| Multiply
| AsyncFirst
| Count
| ThrowError (message : string)
| ThrowValue (p : Prim)
| RejectWith (p : Prim)
| DropThenThrow (name message : string)
| Never.

Definition demoHost : Host := {|
  Other := Prim;
  Handler := DemoHandler;
  Store := nat
|}.

Section Demo.
#[local] Existing Instance demoHost.

Definition demo_arith (f : nat -> nat -> nat) (args : list Value) : Value :=
  match args with
  | VOther (PNumber a) :: VOther (PNumber b) :: _ => VOther (PNumber (f a b))
  | _ => VOther PNaN
  end.

Definition demo_call (h : DemoHandler) (args : list Value) (w : World)
    : Completion Returned * World :=
  match h with
  | Add => (Normal (Plain (demo_arith Nat.add args)), w)
  | Multiply => (Normal (Plain (demo_arith Nat.mul args)), w)
  | AsyncFirst =>
      (Normal (Thenable (Fulfilled (hd (VOther PUndefined) args))), w)
  | Count =>
      (Normal (Plain (VOther PUndefined)),
       {| commands := commands w; console := console w; store := S (store w) |})
  | ThrowError message => (Throw (VError message), w)
  | ThrowValue p => (Throw (VOther p), w)
  | RejectWith p => (Normal (Thenable (Rejected (VOther p))), w)
  | DropThenThrow name message =>
      (Throw (VError message), snd (unregister name w))
  | Never => (Normal (Thenable Pending), w)
  end.

(** [p instanceof Error]. *)
Definition demo_instanceof_Error (p : Prim) : Js bool :=
  match p with
  | PSymbolError => ret true
  | _ => ret false
  end.

(** [p.message] in a template literal; a symbol does not convert. *)
Definition demo_message (p : Prim) : Js string :=
  match p with
  | PSymbolError => throw (VError "Cannot convert a Symbol value to a string")
  | _ => ret "undefined"
  end.

(** [String(p)]. *)
Definition demo_String (p : Prim) : Js string :=
  match p with
  | PUndefined => ret "undefined"
  | PNaN => ret "NaN"
  | PNumber n => ret (DecimalString.NilZero.string_of_uint (Nat.to_uint n))
  | PString s => ret s
  | PBare => throw (VError "Cannot convert object to primitive value")
  | PSelfThrower => throw (VOther PSelfThrower)
  | PClearer text => fun w => (Normal text, snd (clear w))
  | PSymbolError => throw (VError "Cannot convert a Symbol value to a string")
  end.

Definition demoRuntime : Runtime := {|
  call := demo_call;
  js_instanceof_Error := demo_instanceof_Error;
  js_message := demo_message;
  js_String := demo_String
|}.
#[local] Existing Instance demoRuntime.

(** The number [n] as a value. *)
Definition number (n : nat) : Value := VOther (PNumber n).

(** A fresh registry; the handlers have counted no call. *)
Definition fresh_world : World := new_registry 0.

(** The metadata of the command [calculate] of the documentation. *)
Definition calculate_metadata : CommandMetadata := {|
  description := Some "Add two numbers";
  usage := Some "calculate <a> <b>";
  examples := Some ["calculate 5 3"]
  |}.

(** A fresh registry with [calculate] registered. *)
Definition calculate_world : World :=
  snd (register "calculate" Add (Some calculate_metadata) fresh_world).

(** A registry with a command that throws an [Error]. *)
Definition boom_world : World :=
  snd (register "boom" (ThrowError "out of cheese") None calculate_world).


(** The plugin [math] of the documentation. *)
Definition math_plugin : CommandPlugin :=
  [("add", Bare Add); ("multiply", Bare Multiply)].

(** A registry with a command whose description is the empty string. *)
Definition blank_metadata : CommandMetadata := {|
  description := Some EmptyString;
  usage := None;
  examples := None
|}.

Definition blank_world : World :=
  snd (register "blank" Add (Some blank_metadata) fresh_world).



(** A registry with a command that throws an object whose [toString]
    clears the registry. *)
Definition sweep_world : World :=
  snd (register "sweep" (ThrowValue (PClearer "swept")) None calculate_world).

(** A registry with a command that unregisters itself and then throws. *)
Definition once_world : World :=
  snd (register "once" (DropThenThrow "once" "spent") None fresh_world).
End Demo.

(** ** More vocabulary for histories *)

Section Warnings.
Context `{Host}.

(** What an event does to the world, through the method it stands for. *)
Definition perform_event (event : Event) (w : World) : World :=
  match event with
  | ERegister name handler metadata => snd (register name handler metadata w)
  | EUnregister name => snd (unregister name w)
  | EClear => snd (clear w)
  end.

(** The names registered after one event, given those registered before. *)
Definition present_after (event : Event) (present : string -> bool)
    : string -> bool :=
  fun name =>
    match event with
    | ERegister n _ _ => if n =? name then true else present name
    | EUnregister n => if n =? name then false else present name
    | EClear => false
    end.

(** The warnings a history prints: one for each registration of a name
    that is registered at that moment, in the order of the events. *)
Fixpoint warnings (events : list Event) (present : string -> bool)
    : list string :=
  match events with
  | [] => []
  | event :: later =>
      (match event with
       | ERegister n _ _ => if present n then [overwrite_warning n] else []
       | _ => []
       end ++ warnings later (present_after event present))%list
  end.
End Warnings.

(** * The runtime namespace of [src/ui/bun.ts]

    The functions read the global [process], which may be missing, and
    nothing else. *)

(** The object [process.env]: its own variables, which are strings, and
    the keys it inherits from its prototype ([toString], [constructor]
    and the like), under which a lookup finds a member that is no
    string. *)
Record Env : Type := {
  env_own : Map string;
  env_inherited : list string
}.

(** What [process.env[key]] finds, when it finds something: the string of
    an own variable, or the member inherited under the key. *)
Inductive EnvValue : Type :=
| EnvString (value : string)
| EnvMember (key : string).

(** [env[key]]: own variables come first; a key that is neither own nor
    inherited reads as [undefined]. *)
Definition env_get (key : string) (env : Env) : option EnvValue :=
  match Map_get key (env_own env) with
  | Some value => Some (EnvString value)
  | None =>
      if existsb (String.eqb key) (env_inherited env)
      then Some (EnvMember key)
      else None
  end.

(** The object [process], as far as the functions look at it: it may lack
    [versions] and [env]; a missing key reads as [undefined]. *)
Record Process : Type := {
  process_versions : option (Map string);
  process_env : option Env;
  process_platform : string;
  process_arch : string
}.

(** [key in process.versions], false when there is no [process.versions]. *)
Definition in_versions (key : string) (p : Process) : bool :=
  match process_versions p with
  | Some versions => Map_has key versions
  | None => false
  end.

(** [process.versions[key]] where [key in process.versions] holds. *)
Definition versions_get (key : string) (p : Process) : option string :=
  match process_versions p with
  | Some versions => Map_get key versions
  | None => None
  end.

Definition isBun (process : option Process) : bool :=
  match process with
  | Some p => in_versions "bun" p
  | None => false
  end.

Definition isNode (process : option Process) : bool :=
  match process with
  | Some p => in_versions "node" p && negb (isBun process)
  | None => false
  end.

Definition getBunVersion (process : option Process) : option string :=
  match process with
  | Some p =>
      if isBun process && truthy_opt (versions_get "bun" p)
      then versions_get "bun" p
      else None
  | None => None
  end.

Definition getNodeVersion (process : option Process) : option string :=
  match process with
  | Some p =>
      if isNode process && truthy_opt (versions_get "node" p)
      then versions_get "node" p
      else None
  | None => None
  end.

Definition getRuntime (process : option Process) : string :=
  if isBun process then "bun"
  else if isNode process then "node"
  else "unknown".

(** The object [getRuntimeInfo] returns. *)
Record RuntimeInfo : Type := {
  runtime : string;
  version : option string;
  platform : string;
  arch : string
}.

Definition getRuntimeInfo (process : option Process) : RuntimeInfo := {|
  runtime := getRuntime process;
  version := if isBun process
             then getBunVersion process
             else getNodeVersion process;
  platform := match process with
              | Some p => process_platform p
              | None => "unknown"
              end;
  arch := match process with
          | Some p => process_arch p
          | None => "unknown"
          end
|}.

(** [a ?? b], where [undefined] is [None]. *)
Definition nullish {A : Type} (a b : option A) : option A :=
  match a with
  | Some _ => a
  | None => b
  end.

(** [getEnv(key, defaultValue)]; the default, a string when given, is
    returned as it is. *)
Definition getEnv (process : option Process) (key : string)
    (defaultValue : option string) : option EnvValue :=
  match process with
  | None => option_map EnvString defaultValue
  | Some p =>
      match process_env p with
      | None => option_map EnvString defaultValue
      | Some env =>
          nullish (env_get key env) (option_map EnvString defaultValue)
      end
  end.

(** A call that returns a value or throws an [Error] with a message. *)
Inductive Outcome (A : Type) : Type :=
| Returns (a : A)
| Throws (message : string).
Arguments Throws {A} message.

Definition getRequiredEnv (process : option Process) (key : string)
    : Outcome EnvValue :=
  match getEnv process key None with
  | None => Throws ("Required environment variable " ++ key ++ " is not set")
  | Some value => Returns value
  end.

(** [a === b] where [b] is a string: only the same string is equal. *)
Definition strict_equal (a : option EnvValue) (b : string) : bool :=
  match a with
  | Some (EnvString a) => a =? b
  | _ => false
  end.

Definition isDevelopment (process : option Process) : bool :=
  strict_equal (getEnv process "NODE_ENV" (Some "development")) "development".

Definition isProduction (process : option Process) : bool :=
  strict_equal (getEnv process "NODE_ENV" (Some "development")) "production".

Definition isTest (process : option Process) : bool :=
  strict_equal (getEnv process "NODE_ENV" (Some "development")) "test".

Section Conditional.
Variables (C T : Type).

(** [ifBun(fn, fallback)]: [fn] runs on the state [C] of its closure; the
    result is [undefined] when there is neither a call nor a fallback. *)
Definition ifBun (process : option Process) (fn : C -> T * C)
    (fallback : option T) : C -> option T * C :=
  fun s =>
    if isBun process
    then let (result, s') := fn s in (Some result, s')
    else (fallback, s).

Definition ifNode (process : option Process) (fn : C -> T * C)
    (fallback : option T) : C -> option T * C :=
  fun s =>
    if isNode process
    then let (result, s') := fn s in (Some result, s')
    else (fallback, s).
End Conditional.

(** * The search parameters of [src/ui/next.ts] *)





(** ** Concrete processes *)

(** The keys every ordinary object inherits from [Object.prototype]. *)
Definition Object_prototype_keys : list string :=
  ["constructor"; "toString"; "toLocaleString"; "valueOf";
   "hasOwnProperty"; "isPrototypeOf"; "propertyIsEnumerable"; "__proto__";
   "__defineGetter__"; "__defineSetter__"; "__lookupGetter__";
   "__lookupSetter__"].

(** A Bun process; Bun reports a Node.js version as well. *)
Definition bun_process : Process := {|
  process_versions := Some [("node", "22.6.0"); ("bun", "1.1.30")];
  process_env := Some {|
    env_own := [("NODE_ENV", "production"); ("EMPTY", EmptyString)];
    env_inherited := Object_prototype_keys
  |};
  process_platform := "linux";
  process_arch := "x64"
|}.

(** A Node.js process without [NODE_ENV]. *)
Definition node_process : Process := {|
  process_versions := Some [("node", "20.11.1")];
  process_env := Some {|
    env_own := [("HOME", "/root")];
    env_inherited := Object_prototype_keys
  |};
  process_platform := "darwin";
  process_arch := "arm64"
|}.

(** * Properties *)

(** ** Strings *)

Lemma append_assoc (a b c : string) : (a ++ b) ++ c = a ++ b ++ c.
Proof. induction a as [|x a IH]; simpl; [reflexivity | now rewrite IH]. Qed.

Lemma append_empty_r (a : string) : a ++ EmptyString = a.
Proof. induction a as [|x a IH]; simpl; [reflexivity | now rewrite IH]. Qed.

Lemma startsWith_append (sub post : string) :
  startsWith (sub ++ post) sub = true.
Proof.
  induction sub as [|c sub IH]; simpl.
  - reflexivity.
  - now rewrite Ascii.eqb_refl, IH.
Qed.

Lemma startsWith_inv (sub s : string) :
  startsWith s sub = true -> exists post, s = sub ++ post.
Proof.
  revert s; induction sub as [|c sub IH]; intros s Hs.
  - now exists s.
  - destruct s as [|d s]; simpl in Hs; [discriminate|].
    apply andb_true_iff in Hs as [Hc Hs].
    apply Ascii.eqb_eq in Hc; subst d.
    destruct (IH _ Hs) as [post ->].
    now exists post.
Qed.

Lemma includes_startsWith (s sub : string) :
  startsWith s sub = true -> includes s sub = true.
Proof. destruct s; simpl; intros ->; reflexivity. Qed.

(** [includes] finds exactly the substrings. *)
Lemma includes_spec (s sub : string) :
  includes s sub = true <-> exists pre post, s = pre ++ sub ++ post.
Proof.
  split.
  - induction s as [|c s IH]; simpl; intros Hs.
    + rewrite orb_false_r in Hs.
      destruct (startsWith_inv _ _ Hs) as [post ->].
      now exists EmptyString, post.
    + apply orb_true_iff in Hs as [Hs | Hs].
      * destruct (startsWith_inv _ _ Hs) as [post ->].
        now exists EmptyString, post.
      * destruct (IH Hs) as (pre & post & ->).
        now exists (String c pre), post.
  - intros (pre & post & ->).
    induction pre as [|c pre IH]; simpl.
    + apply includes_startsWith, startsWith_append.
    + now rewrite IH, orb_true_r.
Qed.

Lemma includes_here (pre sub post : string) :
  includes (pre ++ sub ++ post) sub = true.
Proof. apply includes_spec; now exists pre, post. Qed.

Lemma includes_refl (s : string) : includes s s = true.
Proof.
  apply includes_spec; exists EmptyString, EmptyString; simpl.
  now rewrite append_empty_r.
Qed.

Lemma includes_within (pre s post sub : string) :
  includes s sub = true -> includes (pre ++ s ++ post) sub = true.
Proof.
  intros Hs; apply includes_spec in Hs as (a & b & ->).
  apply includes_spec; exists (pre ++ a), (b ++ post).
  now rewrite !append_assoc.
Qed.

Lemma includes_suffix (pre s sub : string) :
  includes s sub = true -> includes (pre ++ s) sub = true.
Proof.
  intros Hs; rewrite <- (append_empty_r s).
  now apply includes_within.
Qed.

Lemma includes_prefix (s post sub : string) :
  includes s sub = true -> includes (s ++ post) sub = true.
Proof. intros Hs; now apply (includes_within EmptyString s post). Qed.

(** Every element of an array shows in its [join]. *)
Lemma includes_join (sep : string) (xs : list string) (x : string) :
  In x xs -> includes (join sep xs) x = true.
Proof.
  induction xs as [|y [|z rest] IH]; intros Hin.
  - destruct Hin.
  - destruct Hin as [-> | []]; apply includes_refl.
  - change (join sep (y :: z :: rest)) with (y ++ sep ++ join sep (z :: rest)).
    destruct Hin as [-> | Hin].
    + apply includes_prefix, includes_refl.
    + apply includes_suffix, includes_suffix, IH, Hin.
Qed.

Lemma truthy_true (s : string) : truthy s = true <-> s <> EmptyString.
Proof.
  unfold truthy; rewrite negb_true_iff; apply String.eqb_neq.
Qed.

(** [join] with the line feed, closed by one more, is [unlines]. *)
Lemma join_LF_unlines (x : string) (xs : list string) :
  join LF (x :: xs) ++ LF = unlines (x :: xs).
Proof.
  revert x; induction xs as [|y ys IH]; intros x.
  - reflexivity.
  - change (join LF (x :: y :: ys)) with (x ++ LF ++ join LF (y :: ys)).
    rewrite !append_assoc, IH; reflexivity.
Qed.

Lemma unlines_app (xs ys : list string) :
  unlines (xs ++ ys) = unlines xs ++ unlines ys.
Proof.
  induction xs as [|x xs IH]; simpl; [reflexivity|].
  now rewrite IH, !append_assoc.
Qed.

(** ** The insertion-ordered map *)

Section MapFacts.
Variable V : Type.
Implicit Types (m : Map V) (k : string) (v : V).

Lemma Map_has_In k m : Map_has k m = true <-> In k (Map_keys m).
Proof.
  unfold Map_has; induction m as [|[k' v'] rest IH]; simpl.
  - split; [discriminate | tauto].
  - destruct (String.eqb_spec k k') as [-> | Hne].
    + split; auto.
    + rewrite IH; split; [tauto | intros [E | Hin]; congruence].
Qed.

Lemma Map_has_false k m : Map_has k m = false <-> ~ In k (Map_keys m).
Proof.
  rewrite <- Map_has_In; destruct (Map_has k m); split; congruence.
Qed.

Lemma Map_get_none k m : Map_get k m = None <-> Map_has k m = false.
Proof. unfold Map_has; destruct (Map_get k m); split; congruence. Qed.

Lemma Map_get_set_same k v m : Map_get k (Map_set k v m) = Some v.
Proof.
  induction m as [|[k' v'] rest IH]; simpl.
  - now rewrite String.eqb_refl.
  - destruct (k =? k') eqn:E; simpl; rewrite ?String.eqb_refl, ?E; auto.
Qed.

Lemma Map_get_set_other k k' v m :
  k <> k' -> Map_get k (Map_set k' v m) = Map_get k m.
Proof.
  intros Hne; apply String.eqb_neq in Hne.
  induction m as [|[k2 v2] rest IH]; simpl.
  - now rewrite Hne.
  - destruct (String.eqb_spec k' k2) as [-> | Hne2]; simpl.
    + now rewrite Hne.
    + now rewrite IH.
Qed.

Lemma Map_has_set k k' v m :
  Map_has k (Map_set k' v m) = (k =? k') || Map_has k m.
Proof.
  unfold Map_has; destruct (String.eqb_spec k k') as [-> | Hne].
  - now rewrite Map_get_set_same.
  - now rewrite Map_get_set_other.
Qed.

(** Overwriting keeps every key where it stands. *)
Lemma Map_keys_set_present k v m :
  Map_has k m = true -> Map_keys (Map_set k v m) = Map_keys m.
Proof.
  unfold Map_has; induction m as [|[k' v'] rest IH]; simpl.
  - discriminate.
  - destruct (String.eqb_spec k k') as [-> | Hne]; simpl.
    + reflexivity.
    + intros Hp; now rewrite IH.
Qed.

(** A new key goes last. *)
Lemma Map_set_absent k v m :
  Map_has k m = false -> Map_set k v m = (m ++ [(k, v)])%list.
Proof.
  unfold Map_has; induction m as [|[k' v'] rest IH]; simpl.
  - reflexivity.
  - destruct (String.eqb_spec k k') as [-> | Hne]; simpl.
    + discriminate.
    + intros Hp; now rewrite IH.
Qed.

Lemma Map_keys_set k v m :
  Map_keys (Map_set k v m)
  = if Map_has k m then Map_keys m else (Map_keys m ++ [k])%list.
Proof.
  destruct (Map_has k m) eqn:E.
  - now apply Map_keys_set_present.
  - rewrite Map_set_absent by assumption.
    unfold Map_keys; now rewrite map_app.
Qed.

Lemma MapOK_nil : MapOK (@nil (string * V)).
Proof. constructor. Qed.

Lemma MapOK_set k v m : MapOK m -> MapOK (Map_set k v m).
Proof.
  unfold MapOK; rewrite Map_keys_set.
  destruct (Map_has k m) eqn:E; [auto|].
  intros Hm; apply Map_has_false in E.
  apply NoDup_rev in Hm; rewrite <- (rev_involutive (_ ++ _)%list).
  apply NoDup_rev; rewrite rev_app_distr; simpl.
  constructor; [now rewrite <- in_rev | assumption].
Qed.

Lemma Map_keys_delete_incl k k' m :
  In k (Map_keys (Map_delete k' m)) -> In k (Map_keys m).
Proof.
  induction m as [|[k2 v2] rest IH]; simpl; [tauto|].
  destruct (k' =? k2); simpl; tauto.
Qed.

Lemma MapOK_delete k m : MapOK m -> MapOK (Map_delete k m).
Proof.
  unfold MapOK; induction m as [|[k' v'] rest IH]; simpl; intros Hm.
  - assumption.
  - inversion Hm as [|? ? Hnotin Hrest]; subst.
    destruct (k =? k'); simpl; [assumption|].
    constructor; [|auto].
    intros Hin; apply Hnotin; eapply Map_keys_delete_incl; eassumption.
Qed.

Lemma Map_delete_absent k m : Map_has k m = false -> Map_delete k m = m.
Proof.
  unfold Map_has; induction m as [|[k' v'] rest IH]; simpl.
  - reflexivity.
  - destruct (k =? k'); [discriminate|].
    intros Hp; now rewrite IH.
Qed.

Lemma Map_get_delete_other k k' m :
  k <> k' -> Map_get k (Map_delete k' m) = Map_get k m.
Proof.
  intros Hne; induction m as [|[k2 v2] rest IH]; simpl.
  - reflexivity.
  - destruct (String.eqb_spec k' k2) as [-> | Hne2]; simpl.
    + apply String.eqb_neq in Hne; now rewrite Hne.
    + now rewrite IH.
Qed.

(** In a map, [delete] leaves no entry of the key behind. *)
Lemma Map_get_delete_same k m :
  MapOK m -> Map_get k (Map_delete k m) = None.
Proof.
  unfold MapOK; induction m as [|[k' v'] rest IH]; simpl; intros Hm.
  - reflexivity.
  - inversion Hm as [|? ? Hnotin Hrest]; subst.
    destruct (String.eqb_spec k k') as [-> | Hne]; simpl.
    + apply Map_get_none, Map_has_false, Hnotin.
    + apply String.eqb_neq in Hne; rewrite Hne; auto.
Qed.

(** In a map, [delete] removes the entry of the key and nothing else. *)
Lemma Map_delete_filter k m :
  MapOK m ->
  Map_delete k m = filter (fun entry => negb (fst entry =? k)) m.
Proof.
  unfold MapOK; induction m as [|[k' v'] rest IH]; simpl; intros Hm.
  - reflexivity.
  - inversion Hm as [|? ? Hnotin Hrest]; subst.
    rewrite (String.eqb_sym k' k).
    destruct (String.eqb_spec k k') as [-> | Hne]; simpl.
    + symmetry; apply forallb_filter_id, forallb_forall.
      intros [k2 v2] Hin; simpl.
      apply negb_true_iff, String.eqb_neq; intros ->.
      apply Hnotin; change k' with (fst (k', v2)); now apply in_map.
    + now rewrite IH.
Qed.

Lemma Map_delete_length k m :
  Map_has k m = true -> S (length (Map_delete k m)) = length m.
Proof.
  unfold Map_has; induction m as [|[k' v'] rest IH]; simpl.
  - discriminate.
  - destruct (k =? k'); simpl; [reflexivity|].
    intros Hp; now rewrite IH.
Qed.

(** In a map, the entry listed under a key is the one [get] finds. *)
Lemma Map_get_In k v m : MapOK m -> In (k, v) m -> Map_get k m = Some v.
Proof.
  unfold MapOK; induction m as [|[k' v'] rest IH]; simpl; intros Hm Hin.
  - destruct Hin.
  - inversion Hm as [|? ? Hnotin Hrest]; subst.
    destruct Hin as [E | Hin].
    + inversion E; subst; now rewrite String.eqb_refl.
    + destruct (String.eqb_spec k k') as [-> | Hne]; [|auto].
      exfalso; apply Hnotin; change k' with (fst (k', v)); now apply in_map.
Qed.
End MapFacts.

(** ** The methods *)

Section Methods.
Context `{Runtime}.

Lemma register_eq name h m w :
  register name h m w
  = (Normal tt,
     {| commands := Map_set name (Build_CommandEntry h m) (commands w);
        console := if Map_has name (commands w)
                   then (console w ++ [overwrite_warning name])%list
                   else console w;
        store := store w |}).
Proof.
  unfold register, bind, commands_has, commands_set, console_warn, ret.
  destruct (Map_has name (commands w)); reflexivity.
Qed.

Lemma register_commands name h m w :
  commands (snd (register name h m w))
  = Map_set name (Build_CommandEntry h m) (commands w).
Proof. now rewrite register_eq. Qed.

Lemma world_eta (w : World) :
  {| commands := commands w; console := console w; store := store w |} = w.
Proof. now destruct w. Qed.

Lemma plugin_eq pluginName commands w :
  plugin pluginName commands w
  = (Normal tt, fold_left (register_entry pluginName) commands w).
Proof.
  revert w; induction commands as [|[shortName command] rest IH]; intros w.
  - reflexivity.
  - cbn [plugin fold_left]; unfold bind.
    assert (E : match command with
                | Bare f => register (pluginName ++ ":" ++ shortName) f None
                | WithMetadata h m =>
                    register (pluginName ++ ":" ++ shortName) h m
                end w
                = (Normal tt,
                   register_entry pluginName w (shortName, command))).
    { unfold register_entry, composite; destruct command; cbn [fst snd];
        rewrite !register_eq; reflexivity. }
    rewrite E; apply IH.
Qed.
End Methods.

(** ** [register] followed by [has], [getMetadata] and [execute] *)

Section Execute.
Context `{Runtime}.

Lemma has_eq name w : has name w = (Normal (Map_has name (commands w)), w).
Proof. reflexivity. Qed.

Lemma getMetadata_eq name w :
  getMetadata name w
  = (Normal match Map_get name (commands w) with
            | Some command => metadata command
            | None => None
            end, w).
Proof. reflexivity. Qed.

Lemma execute_found name args w command :
  Map_get name (commands w) = Some command ->
  execute name args w
  = match await (fst (call (handler command) args w)) with
    | Fulfilled result =>
        (Fulfilled result, snd (call (handler command) args w))
    | Rejected error =>
        match error_text error (snd (call (handler command) args w)) with
        | (Normal text, w'') =>
            (Rejected (VError ("Error executing command " ++ DQ ++ name
                               ++ DQ ++ ": " ++ text)), w'')
        | (Throw v, w'') => (Rejected v, w'')
        end
    | Pending => (Pending, snd (call (handler command) args w))
    end.
Proof.
  intros Hget; unfold execute; rewrite Hget.
  destruct (call (handler command) args w) as [completion w']; reflexivity.
Qed.


Lemma error_text_other o w :
  error_text (VOther o) w
  = match js_instanceof_Error o w with
    | (Normal is_error, w1) =>
        if is_error then js_message o w1 else js_String o w1
    | (Throw v, w1) => (Throw v, w1)
    end.
Proof.
  unfold error_text, bind.
  destruct (js_instanceof_Error o w) as [[[|] | v] w1]; reflexivity.
Qed.

(** C1. After [register(name, h, m)], whatever the registry held:
    [has(name)] is true, [getMetadata(name)] is [m] ([None] when it was
    left out), and [execute(name, ...args)] is one call of [h] on exactly
    [args]: the promise is fulfilled with the very value [h] returned, or
    with the value the promise [h] returned is fulfilled with, and the
    world afterwards is the one that call leaves. When [h] fails, the
    [catch] block puts the failure into text on that world. *)
Theorem register_then_has_getMetadata_execute
    (name : string) (h : Handler) (m : option CommandMetadata)
    (args : list Value) (w : World) :
  let w1 := snd (register name h m w) in
  register name h m w = (Normal tt, w1)
  /\ has name w1 = (Normal true, w1)
  /\ getMetadata name w1 = (Normal m, w1)
  /\ execute name args w1
     = match call h args w1 with
       | (Normal (Plain v), w2) => (Fulfilled v, w2)
       | (Normal (Thenable (Fulfilled v)), w2) => (Fulfilled v, w2)
       | (Normal (Thenable Pending), w2) => (Pending, w2)
       | (Normal (Thenable (Rejected error)), w2)
       | (Throw error, w2) =>
           match error_text error w2 with
           | (Normal text, w3) =>
               (Rejected (VError ("Error executing command " ++ DQ ++ name
                                  ++ DQ ++ ": " ++ text)), w3)
           | (Throw v, w3) => (Rejected v, w3)
           end
       end.
Proof.
  intros w1.
  assert (Hget : Map_get name (commands w1) = Some (Build_CommandEntry h m)).
  { subst w1; rewrite register_commands; apply Map_get_set_same. }
  repeat split.
  - subst w1; now rewrite register_eq.
  - rewrite has_eq; unfold Map_has; now rewrite Hget.
  - rewrite getMetadata_eq; now rewrite Hget.
  - rewrite (execute_found _ _ _ Hget); cbn [handler].
    destruct (call h args w1) as [[[v | [v | error |]] | error] w2];
      reflexivity.
Qed.

(** C2. [execute] of a name that is not registered rejects with an
    [Error] and touches nothing. The message is the name between quotes,
    the words [not found], and the names of the map in its order, joined
    by commas: it holds every name for which [has] is true, and
    [list()], which holds exactly those names. *)
Theorem execute_unregistered_name
    (name : string) (args : list Value) (w : World) :
  has name w = (Normal false, w) ->
  exists message : string,
    execute name args w = (Rejected (VError message), w)
    /\ message = "Command " ++ DQ ++ name ++ DQ
                 ++ " not found. Available commands: "
                 ++ join ", " (Map_keys (commands w))
    /\ includes message name = true
    /\ includes message "not found" = true
    /\ (forall n, has n w = (Normal true, w) -> includes message n = true)
    /\ exists names : list string,
         list_ w = (Normal names, w)
         /\ includes message (join ", " names) = true
         /\ forall n, In n names <-> has n w = (Normal true, w).
Proof.
  intros Hhas.
  rewrite has_eq in Hhas; injection Hhas as Hhas.
  apply Map_get_none in Hhas.
  exists ("Command " ++ DQ ++ name ++ DQ
          ++ " not found. Available commands: "
          ++ join ", " (Map_keys (commands w))).
  split; [|split; [|split; [|split; [|split]]]].
  - unfold execute; now rewrite Hhas.
  - reflexivity.
  - do 2 apply includes_suffix; apply includes_prefix, includes_refl.
  - do 4 apply includes_suffix; now apply includes_prefix.
  - intros n [= Hn]; do 5 apply includes_suffix.
    apply includes_join, Map_has_In, Hn.
  - exists (Map_keys (commands w)).
    split; [reflexivity|]; split.
    + do 5 apply includes_suffix; apply includes_refl.
    + intros n; rewrite has_eq, <- Map_has_In.
      split; [now intros -> | now intros [= ->]].
Qed.


End Execute.

(** ** [unregister] and the invariant of the map *)

Section Invariant.
Context `{Runtime}.

Lemma unregister_eq name w :
  unregister name w
  = (Normal (Map_has name (commands w)),
     with_commands (Map_delete name (commands w)) w).
Proof. reflexivity. Qed.

Lemma getAll_eq w :
  getAll w
  = (Normal (List.map (fun '(name, entry) => (name, metadata entry))
               (commands w)), w).
Proof. reflexivity. Qed.

Lemma help_command_world name w : snd (help_command name w) = w.
Proof.
  unfold help_command, bind, commands_get.
  destruct (Map_get name (commands w)) as [[h [md|]]|]; reflexivity.
Qed.

Lemma help_all_world w : snd (help_all w) = w.
Proof.
  unfold help_all, bind; rewrite getAll_eq.
  destruct (List.map _ (commands w)); reflexivity.
Qed.

Lemma help_world name w : snd (help name w) = w.
Proof.
  destruct name as [name|]; simpl;
    [destruct (truthy name)|]; auto using help_command_world, help_all_world.
Qed.

Lemma plugin_keeps_map pluginName commands0 w :
  MapOK (commands w) ->
  MapOK (commands (fold_left (register_entry pluginName) commands0 w)).
Proof.
  revert w; induction commands0 as [|entry rest IH]; intros w Hw; simpl.
  - assumption.
  - apply IH; unfold register_entry.
    rewrite register_commands; now apply MapOK_set.
Qed.

Lemma error_text_keeps_map error w :
  handlers_keep_map ->
  MapOK (commands w) -> MapOK (commands (snd (error_text error w))).
Proof.
  intros [_ Hcode] Hw; destruct error as [message | o]; [exact Hw|].
  rewrite error_text_other.
  destruct (Hcode o w Hw) as (Htest & _).
  destruct (js_instanceof_Error o w) as [[[|] | v] w1]; cbn [snd] in *.
  - now apply Hcode.
  - now apply Hcode.
  - exact Htest.
Qed.

(** Every public method keeps the map a map. *)
Lemma perform_keeps_map op w :
  handlers_keep_map ->
  MapOK (commands w) -> MapOK (commands (perform op w)).
Proof.
  intros Hcall Hw; destruct op; cbn [perform].
  - rewrite register_commands; now apply MapOK_set.
  - rewrite plugin_eq; cbn [snd]; now apply plugin_keeps_map.
  - unfold execute.
    destruct (Map_get name (commands w)) as [command|]; [|assumption].
    pose proof (proj1 Hcall (handler command) args w Hw) as Hafter.
    destruct (call (handler command) args w) as [completion w'].
    cbn [snd] in Hafter.
    destruct (await completion) as [v | error |]; cbn [snd]; try assumption.
    pose proof (error_text_keeps_map error w' Hcall Hafter) as Htext.
    destruct (error_text error w') as [[text | v] w'']; exact Htext.
  - assumption.
  - assumption.
  - assumption.
  - assumption.
  - now apply MapOK_delete.
  - apply MapOK_nil.
  - now rewrite help_world.
Qed.

Lemma reachable_map w : handlers_keep_map -> reachable w -> MapOK (commands w).
Proof.
  intros Hcall Hw; induction Hw as [s | op w Hw IH].
  - apply MapOK_nil.
  - now apply perform_keeps_map.
Qed.

(** C9. On a registry whose map holds each name once: [unregister(name)]
    completes normally and returns whether [name] was registered; the
    map afterwards is the map before without the entry of [name], every
    other entry where it stood, and nothing else in the world changed;
    [has(name)] is false afterwards; when [name] was registered one
    entry is gone, and when it was not the world is the same. *)
Theorem unregister_removes_exactly (name : string) (w : World) :
  MapOK (commands w) ->
  exists (removed : bool) (w' : World),
    unregister name w = (Normal removed, w')
    /\ has name w = (Normal removed, w)
    /\ has name w' = (Normal false, w')
    /\ commands w'
       = filter (fun entry => negb (fst entry =? name)) (commands w)
    /\ console w' = console w
    /\ store w' = store w
    /\ (removed = true -> S (length (commands w')) = length (commands w))
    /\ (removed = false -> w' = w).
Proof.
  intros Hw.
  exists (Map_has name (commands w)),
         (with_commands (Map_delete name (commands w)) w).
  split; [apply unregister_eq|].
  split; [apply has_eq|].
  split.
  { rewrite has_eq; cbn [commands with_commands]; unfold Map_has.
    now rewrite Map_get_delete_same. }
  split; [now apply Map_delete_filter|].
  split; [reflexivity|].
  split; [reflexivity|].
  split.
  - intros Hp; cbn [commands with_commands]; now apply Map_delete_length.
  - intros Hp; unfold with_commands.
    rewrite Map_delete_absent by assumption; apply world_eta.
Qed.

(** C4. In every world a program can reach (handlers using the registry
    through its methods), the map holds each name at most once, and every
    method leaves it so. [register] completes normally whatever it is
    given: the entry of [name] is then the new handler with the new
    metadata, so that [execute] runs the new handler; the other names keep
    their entries; a name already present keeps its place among the
    names, and a new name goes last. *)
Theorem one_entry_per_name (w : World) :
  handlers_keep_map ->
  reachable w ->
  MapOK (commands w)
  /\ (forall name : string,
        count_occ string_dec (Map_keys (commands w)) name <= 1)
  /\ (forall op : Operation, MapOK (commands (perform op w)))
  /\ forall (name : string) (h : Handler) (m : option CommandMetadata),
       exists w1 : World,
         register name h m w = (Normal tt, w1)
         /\ Map_get name (commands w1) = Some (Build_CommandEntry h m)
         /\ (forall args : list Value,
               execute name args w1
               = match await (fst (call h args w1)) with
                 | Fulfilled result => (Fulfilled result, snd (call h args w1))
                 | Rejected error =>
                     match error_text error (snd (call h args w1)) with
                     | (Normal text, w2) =>
                         (Rejected
                            (VError ("Error executing command " ++ DQ
                                     ++ name ++ DQ ++ ": " ++ text)), w2)
                     | (Throw v, w2) => (Rejected v, w2)
                     end
                 | Pending => (Pending, snd (call h args w1))
                 end)
         /\ (forall other : string,
               other <> name ->
               Map_get other (commands w1) = Map_get other (commands w))
         /\ Map_keys (commands w1)
            = (if Map_has name (commands w)
               then Map_keys (commands w)
               else (Map_keys (commands w) ++ [name])%list)
         /\ MapOK (commands w1).
Proof.
  intros Hcall Hreach.
  pose proof (reachable_map Hcall Hreach) as Hw.
  split; [assumption|].
  split; [intros name; now apply NoDup_count_occ|].
  split; [intros op; now apply perform_keeps_map|].
  intros name h m.
  exists (snd (register name h m w)).
  assert (Hget : Map_get name (commands (snd (register name h m w)))
                 = Some (Build_CommandEntry h m)).
  { rewrite register_commands; apply Map_get_set_same. }
  split; [now rewrite register_eq|].
  split; [assumption|].
  split; [intros args; now rewrite (execute_found _ _ _ Hget)|].
  rewrite register_commands.
  split; [intros other Hne; now apply Map_get_set_other|].
  split; [apply Map_keys_set | now apply MapOK_set].
Qed.
End Invariant.

(** ** [plugin] *)

Section Plugin.
Context `{Runtime}.

Lemma append_inj (a b c : string) : a ++ b = a ++ c -> b = c.
Proof.
  induction a as [|x a IH]; simpl; intros E; [assumption|].
  injection E as E; auto.
Qed.

Lemma composite_inj pluginName s1 s2 :
  composite pluginName s1 = composite pluginName s2 -> s1 = s2.
Proof.
  unfold composite; intros E.
  apply append_inj in E; now apply append_inj in E.
Qed.

(** A name that no entry is registered under keeps what it had. *)
Lemma plugin_other_names pluginName commands0 w name :
  (forall shortName, In shortName (List.map fst commands0) ->
     name <> composite pluginName shortName) ->
  Map_get name (commands (fold_left (register_entry pluginName) commands0 w))
  = Map_get name (commands w).
Proof.
  revert w; induction commands0 as [|[s c] rest IH]; intros w Hother.
  - reflexivity.
  - cbn [fold_left]; rewrite IH.
    + unfold register_entry; rewrite register_commands; cbn [fst snd].
      apply Map_get_set_other, Hother; now left.
    + intros s' Hin; apply Hother; now right.
Qed.

Lemma plugin_entry_registered pluginName commands0 w shortName command :
  NoDup (List.map fst commands0) ->
  In (shortName, command) commands0 ->
  Map_get (composite pluginName shortName)
    (commands (fold_left (register_entry pluginName) commands0 w))
  = Some (Build_CommandEntry (handler_of command) (metadata_of command)).
Proof.
  revert w; induction commands0 as [|[s c] rest IH]; intros w Hnodup Hin.
  - destruct Hin.
  - cbn [List.map fst] in Hnodup.
    inversion Hnodup as [|? ? Hfresh Hrest]; subst.
    cbn [fold_left]; destruct Hin as [E | Hin].
    + inversion E; subst s c.
      rewrite plugin_other_names.
      * unfold register_entry; rewrite register_commands; cbn [fst snd].
        apply Map_get_set_same.
      * intros s' Hin' E'; apply composite_inj in E'; now subst s'.
    + now apply IH.
Qed.

Lemma plugin_keys_fresh pluginName commands0 w :
  NoDup (List.map fst commands0) ->
  (forall shortName, In shortName (List.map fst commands0) ->
     Map_has (composite pluginName shortName) (commands w) = false) ->
  Map_keys (commands (fold_left (register_entry pluginName) commands0 w))
  = (Map_keys (commands w)
     ++ List.map (composite pluginName) (List.map fst commands0))%list.
Proof.
  revert w; induction commands0 as [|[s c] rest IH]; intros w Hnodup Hfresh.
  - cbn; now rewrite app_nil_r.
  - cbn [List.map fst] in Hnodup.
    inversion Hnodup as [|? ? Hnotin Hrest]; subst.
    cbn [fold_left]; rewrite IH; [|assumption|].
    + unfold register_entry at 1; rewrite register_commands; cbn [fst snd].
      rewrite Map_keys_set, Hfresh by now left.
      cbn [List.map fst]; now rewrite <- app_assoc.
    + intros s' Hin.
      unfold register_entry; rewrite register_commands; cbn [fst snd].
      rewrite Map_has_set, Hfresh by now right.
      rewrite orb_false_r; apply String.eqb_neq.
      intros E; apply composite_inj in E; now subst s'.
Qed.

(** C5, as the code has it. For a mapping that holds each short name
    once, [plugin(pluginName, commands)] completes normally and is one
    [register] per entry, in the order of the mapping, each under the
    composite name with the handler and the metadata of the entry; every
    composite name is registered afterwards with that entry; a name that
    is not a composite name of the mapping keeps what it had, so a short
    name that was not registered and is no composite name of the mapping
    is not registered afterwards; and when none of the composite names
    was registered they follow the older names in the order of the
    mapping. *)
Theorem plugin_registers_composite_names
    (pluginName : string) (commands0 : CommandPlugin) (w : World) :
  NoDup (List.map fst commands0) ->
  let w' := fold_left (register_entry pluginName) commands0 w in
  plugin pluginName commands0 w = (Normal tt, w')
  /\ (forall shortName command,
        In (shortName, command) commands0 ->
        has (composite pluginName shortName) w' = (Normal true, w')
        /\ Map_get (composite pluginName shortName) (commands w')
           = Some (Build_CommandEntry (handler_of command)
                     (metadata_of command))
        /\ getMetadata (composite pluginName shortName) w'
           = (Normal (metadata_of command), w'))
  /\ (forall name,
        (forall shortName, In shortName (List.map fst commands0) ->
           name <> composite pluginName shortName) ->
        Map_get name (commands w') = Map_get name (commands w)
        /\ fst (has name w') = fst (has name w))
  /\ (forall shortName,
        In shortName (List.map fst commands0) ->
        has shortName w = (Normal false, w) ->
        ~ In shortName
            (List.map (composite pluginName) (List.map fst commands0)) ->
        has shortName w' = (Normal false, w'))
  /\ ((forall shortName, In shortName (List.map fst commands0) ->
         has (composite pluginName shortName) w = (Normal false, w)) ->
      list_ w'
      = (Normal (Map_keys (commands w)
                 ++ List.map (composite pluginName)
                      (List.map fst commands0))%list, w')).
Proof.
  intros Hnodup w'.
  assert (Hother : forall name,
             (forall shortName, In shortName (List.map fst commands0) ->
                name <> composite pluginName shortName) ->
             Map_get name (commands w') = Map_get name (commands w)).
  { intros name Hname; now apply plugin_other_names. }
  split; [apply plugin_eq|].
  split.
  { intros shortName command Hin.
    pose proof (plugin_entry_registered pluginName commands0 w shortName
                  command Hnodup Hin) as Hget.
    fold w' in Hget.
    rewrite has_eq, getMetadata_eq; unfold Map_has; rewrite Hget; auto. }
  split.
  { intros name Hname; split; [auto|].
    rewrite !has_eq; cbn [fst]; unfold Map_has; now rewrite Hother. }
  split.
  { intros shortName Hin Habsent Hnot.
    rewrite has_eq in *; injection Habsent as Habsent.
    unfold Map_has in *; rewrite Hother; [now rewrite Habsent|].
    intros s' Hin' ->; apply Hnot.
    now apply in_map. }
  intros Hfresh; unfold list_, commands_keys.
  subst w'; rewrite plugin_keys_fresh; [reflexivity | assumption |].
  intros shortName Hin; specialize (Hfresh shortName Hin).
  rewrite has_eq in Hfresh; now injection Hfresh.
Qed.
End Plugin.

(** ** Histories *)

Section HistoryFacts.
Context `{Runtime}.

Lemma plugin_commands pluginName commands0 w :
  commands (fold_left (register_entry pluginName) commands0 w)
  = fold_left (fun m event => apply_event event m)
      (events_of (MPlugin pluginName commands0)) (commands w).
Proof.
  revert w; induction commands0 as [|[s c] rest IH]; intros w.
  - reflexivity.
  - cbn [fold_left events_of List.map] in *; rewrite IH.
    unfold register_entry; rewrite register_commands; reflexivity.
Qed.

Lemma mutate_commands op w :
  commands (mutate op w)
  = fold_left (fun m event => apply_event event m) (events_of op)
      (commands w).
Proof.
  destruct op; cbn [mutate].
  - now rewrite register_commands.
  - rewrite plugin_eq; cbn [snd]; apply plugin_commands.
  - reflexivity.
  - reflexivity.
Qed.

(** The map after a history is the map after its events. *)
Lemma run_commands ops w :
  commands (run ops w)
  = fold_left (fun m event => apply_event event m) (history ops)
      (commands w).
Proof.
  unfold run, history; revert w.
  induction ops as [|op ops IH]; intros w; cbn [fold_left flat_map].
  - reflexivity.
  - now rewrite IH, fold_left_app, mutate_commands.
Qed.

(** *** The order of the names *)

Lemma StronglySorted_ext (A : Type) (R R' : A -> A -> Prop) (l : list A) :
  (forall x y, In x l -> In y l -> R x y -> R' x y) ->
  StronglySorted R l -> StronglySorted R' l.
Proof.
  induction l as [|a l IH]; intros HR Hs; constructor;
    inversion Hs as [|? ? Hl Ha]; subst.
  - apply IH; [|assumption].
    intros x y Hx Hy; apply HR; now right.
  - rewrite Forall_forall in *; intros y Hy.
    apply HR; [now left | now right | auto].
Qed.

Lemma StronglySorted_snoc (A : Type) (R : A -> A -> Prop) (l : list A) a :
  StronglySorted R l -> Forall (fun x => R x a) l ->
  StronglySorted R (l ++ [a]).
Proof.
  induction l as [|b l IH]; intros Hs Ha; simpl.
  - repeat constructor.
  - inversion Hs as [|? ? Hl Hb]; inversion Ha as [|? ? Hba Hla]; subst.
    constructor; [auto|].
    apply Forall_app; split; [assumption | now constructor].
Qed.

Lemma StronglySorted_delete (V : Type) (R : string -> string -> Prop)
    (k : string) (m : Map V) :
  StronglySorted R (Map_keys m) ->
  StronglySorted R (Map_keys (Map_delete k m)).
Proof.
  induction m as [|[k' v'] rest IH]; simpl; intros Hs; [assumption|].
  inversion Hs as [|? ? Hrest Hall]; subst.
  destruct (k =? k'); simpl; [assumption|].
  constructor; [auto|].
  rewrite Forall_forall in *; intros x Hx.
  apply Hall; eapply Map_keys_delete_incl; eassumption.
Qed.

Lemma ordered_new : ordered [] (fun _ => None) 0.
Proof.
  split; simpl.
  - constructor.
  - intros n; split; [tauto | congruence].
  - discriminate.
  - constructor.
Qed.

Lemma ordered_event m since clock event :
  ordered m since clock ->
  ordered (apply_event event m)
    (fun n => stamp clock event n (since n)) (S clock).
Proof.
  intros [Hmap Hnames Hpast Hsorted].
  destruct event as [name h md | name |]; cbn [apply_event stamp].
  - (* register *)
    destruct (Map_has name m) eqn:Hhas.
    + (* the name is there: no moment changes *)
      assert (Hsame : forall n,
                 (if name =? n
                  then match since n with
                       | Some t => Some t
                       | None => Some clock
                       end
                  else since n) = since n).
      { intros n; destruct (String.eqb_spec name n) as [<- | Hne]; auto.
        apply Map_has_In, Hnames in Hhas.
        destruct (since name); congruence. }
      split.
      * now apply MapOK_set.
      * intros n; rewrite Hsame, Map_keys_set_present by assumption.
        apply Hnames.
      * intros n t; rewrite Hsame; intros Hn.
        apply Hpast in Hn; lia.
      * rewrite Map_keys_set_present by assumption.
        apply StronglySorted_ext with (2 := Hsorted).
        intros x y _ _; now rewrite !Hsame.
    + (* the name is new: it is stamped now and goes last *)
      assert (Hnone : since name = None).
      { apply Map_has_false in Hhas.
        destruct (since name) eqn:E; [|reflexivity].
        exfalso; apply Hhas, Hnames; congruence. }
      assert (Hold : forall n, In n (Map_keys m) ->
                 (if name =? n
                  then match since n with
                       | Some t => Some t
                       | None => Some clock
                       end
                  else since n) = since n).
      { intros n Hin; destruct (String.eqb_spec name n) as [<- | Hne]; auto.
        apply Hnames in Hin; congruence. }
      split.
      * now apply MapOK_set.
      * intros n; rewrite Map_keys_set, Hhas, in_app_iff; simpl.
        destruct (String.eqb_spec name n) as [<- | Hne].
        -- rewrite Hnone; split; [congruence | auto].
        -- rewrite <- Hnames; tauto.
      * intros n t.
        destruct (String.eqb_spec name n) as [<- | Hne].
        -- rewrite Hnone; intros [= <-]; lia.
        -- intros Hn; apply Hpast in Hn; lia.
      * rewrite Map_keys_set, Hhas.
        apply StronglySorted_snoc.
        -- apply StronglySorted_ext with (2 := Hsorted).
           intros x y Hx Hy; now rewrite !Hold.
        -- apply Forall_forall; intros x Hx.
           rewrite Hold, String.eqb_refl, Hnone by assumption.
           apply Hnames in Hx.
           destruct (since x) as [t|] eqn:E; [|congruence].
           simpl; eapply Hpast; eassumption.
  - (* unregister *)
    assert (Hkeys : forall n, In n (Map_keys (Map_delete name m))
                              <-> n <> name /\ In n (Map_keys m)).
    { intros n; rewrite <- !Map_has_In; unfold Map_has.
      destruct (String.eqb_spec n name) as [-> | Hne].
      - rewrite Map_get_delete_same by assumption.
        split; [discriminate | tauto].
      - rewrite Map_get_delete_other by assumption; tauto. }
    split.
    + now apply MapOK_delete.
    + intros n; rewrite Hkeys.
      destruct (String.eqb_spec name n) as [<- | Hne].
      * split; [tauto | congruence].
      * rewrite Hnames; split; [tauto | auto].
    + intros n t; destruct (name =? n); [discriminate|].
      intros Hn; apply Hpast in Hn; lia.
    + apply StronglySorted_ext
        with (R := fun a b => earlier (since a) (since b)).
      * intros x y Hx Hy; apply Hkeys in Hx as [Hx _], Hy as [Hy _].
        apply not_eq_sym, String.eqb_neq in Hx, Hy; now rewrite Hx, Hy.
      * now apply StronglySorted_delete.
  - (* clear *)
    split; simpl.
    + constructor.
    + intros n; split; [tauto | congruence].
    + discriminate.
    + constructor.
Qed.

Lemma ordered_events events m since clock :
  ordered m since clock ->
  exists clock',
    ordered (fold_left (fun m event => apply_event event m) events m)
      (fun n => registered_since clock events n (since n)) clock'.
Proof.
  revert m since clock; induction events as [|event later IH];
    intros m since clock Hord; cbn [fold_left registered_since].
  - now exists clock.
  - apply (IH _ (fun n => stamp clock event n (since n)) (S clock)).
    now apply ordered_event.
Qed.
End HistoryFacts.

Section Listing.
Context `{Runtime}.

Lemma recorded_event event m name :
  MapOK m ->
  match Map_get name (apply_event event m) with
  | Some command => metadata command
  | None => None
  end
  = recorded [event] name
      match Map_get name m with
      | Some command => metadata command
      | None => None
      end
  /\ Map_has name (apply_event event m)
     = registered [event] name (Map_has name m).
Proof.
  intros Hmap; destruct event as [n h md | n |];
    cbn [apply_event recorded registered].
  - rewrite Map_has_set, (String.eqb_sym name n); unfold Map_has.
    destruct (String.eqb_spec n name) as [-> | Hne].
    + now rewrite Map_get_set_same.
    + rewrite Map_get_set_other by congruence; auto.
  - unfold Map_has; destruct (String.eqb_spec n name) as [-> | Hne].
    + now rewrite Map_get_delete_same.
    + rewrite Map_get_delete_other by congruence; auto.
  - auto.
Qed.

Lemma recorded_events events m name :
  MapOK m ->
  match Map_get name
          (fold_left (fun m event => apply_event event m) events m) with
  | Some command => metadata command
  | None => None
  end
  = recorded events name
      match Map_get name m with
      | Some command => metadata command
      | None => None
      end
  /\ Map_has name (fold_left (fun m event => apply_event event m) events m)
     = registered events name (Map_has name m).
Proof.
  revert m; induction events as [|event later IH]; intros m Hmap.
  - auto.
  - cbn [fold_left].
    destruct (recorded_event event name Hmap) as [Hmeta Hhas].
    assert (Hmap' : MapOK (apply_event event m)).
    { destruct event; cbn [apply_event];
        auto using MapOK_set, MapOK_delete, MapOK_nil. }
    destruct (IH _ Hmap') as [IHmeta IHhas].
    rewrite IHmeta, IHhas, Hmeta, Hhas; auto.
Qed.

Lemma getAll_by_name w :
  MapOK (commands w) ->
  getAll w
  = (Normal (List.map (fun n => (n, metadata_now w n))
               (Map_keys (commands w))), w).
Proof.
  intros Hmap; rewrite getAll_eq; unfold Map_keys, metadata_now.
  rewrite map_map; do 2 f_equal.
  apply map_ext_in; intros [name entry] Hin; cbn [fst].
  now rewrite (Map_get_In _ _ Hmap Hin).
Qed.

(** C6. After any sequence of [register], [plugin], [unregister] and
    [clear] on a fresh registry, [list()] holds the registered names and
    no other, each once, in the order of the moments since which they
    have been registered without interruption; registering one of them
    again leaves [list()] as it is; and [getAll()] is [list()] with each
    name paired with what [getMetadata] returns for it. *)
Theorem list_in_registration_order (ops : list Mutation) (s : Store) :
  let w := run ops (new_registry s) in
  let moment := registration_time (history ops) in
  exists names : list string,
    list_ w = (Normal names, w)
    /\ NoDup names
    /\ (forall n, In n names <-> has n w = (Normal true, w))
    /\ (forall n, In n names <-> moment n <> None)
    /\ StronglySorted (fun a b => earlier (moment a) (moment b)) names
    /\ (forall n h m,
          In n names ->
          fst (list_ (snd (register n h m w))) = Normal names)
    /\ (forall n, getMetadata n w = (Normal (metadata_now w n), w))
    /\ getAll w
       = (Normal (List.map (fun n => (n, metadata_now w n)) names), w).
Proof.
  intros w moment.
  destruct (ordered_events (history ops) ordered_new)
    as [clock [Hmap Hnames Hpast Hsorted]].
  change (fold_left _ (history ops) [])
    with (fold_left (fun m event => apply_event event m) (history ops)
            (commands (new_registry s))) in *.
  rewrite <- run_commands in *; fold w in Hmap, Hnames, Hsorted.
  exists (Map_keys (commands w)).
  split; [reflexivity|].
  split; [exact Hmap|].
  split.
  { intros n; rewrite has_eq, <- Map_has_In.
    split; [now intros -> | now intros [= ->]]. }
  split; [exact Hnames|].
  split; [exact Hsorted|].
  split.
  { intros n h m Hin; unfold list_, commands_keys; cbn [fst].
    rewrite register_commands, Map_keys_set_present;
      [reflexivity | now apply Map_has_In]. }
  split; [intros n; apply getMetadata_eq | now apply getAll_by_name].
Qed.

(** C8. After any sequence of [register], [plugin], [unregister] and
    [clear] on a fresh registry, [getMetadata(name)] returns the metadata
    given to the most recent registration of [name], and nothing when
    [name] has been removed since or was never registered; it leaves the
    world as it is. Nothing is returned as well for a name registered
    without metadata, so the result does not tell the two apart. *)
Theorem getMetadata_most_recent
    (ops : list Mutation) (s : Store) (name : string) :
  let w := run ops (new_registry s) in
  getMetadata name w = (Normal (recorded (history ops) name None), w)
  /\ has name w = (Normal (registered (history ops) name false), w)
  /\ (has name w = (Normal false, w) -> getMetadata name w = (Normal None, w))
  /\ (forall h : Handler,
        let w1 := snd (register name h None w) in
        has name w1 = (Normal true, w1)
        /\ getMetadata name w1 = (Normal None, w1))
  /\ (forall (h : Handler) (m : option CommandMetadata),
        let w1 := snd (register name h m w) in
        getMetadata name w1 = (Normal m, w1)).
Proof.
  intros w.
  destruct (recorded_events (history ops) name (MapOK_nil CommandEntry))
    as [Hmeta Hhas]; cbn [Map_get] in Hmeta.
  change (Map_has name []) with false in Hhas.
  change (@nil (string * CommandEntry))
    with (commands (new_registry s)) in Hmeta, Hhas.
  rewrite <- run_commands in Hmeta, Hhas; fold w in Hmeta, Hhas.
  rewrite getMetadata_eq, has_eq, Hmeta, Hhas.
  split; [reflexivity|].
  split; [reflexivity|].
  split.
  { intros [= Habsent]; rewrite <- Hmeta.
    rewrite <- Hhas in Habsent; apply Map_get_none in Habsent.
    now rewrite Habsent. }
  split; intros h; [|intros m]; cbn zeta;
    rewrite ?has_eq, getMetadata_eq, register_commands; unfold Map_has;
    now rewrite Map_get_set_same.
Qed.
End Listing.

(** ** [help] *)

Section Help.
Context `{Runtime}.

Lemma help_line_eq help name md :
  help_line help (name, md)
  = help ++ ("  " ++ name ++ description_suffix md) ++ LF.
Proof.
  unfold help_line, description_suffix, truthy.
  destruct md as [[[d|] u e]|]; cbn [description];
    [destruct (d =? EmptyString)| |]; cbn [negb];
    rewrite ?append_assoc, ?append_empty_r; reflexivity.
Qed.

Lemma help_loop_eq (commands0 : list (string * option CommandMetadata))
    (help : string) :
  fold_left help_line commands0 help
  = help ++ unlines (List.map (fun '(name, md) =>
                                 "  " ++ name ++ description_suffix md)
                       commands0).
Proof.
  revert help; induction commands0 as [|[name md] rest IH]; intros help.
  - simpl; now rewrite append_empty_r.
  - cbn [fold_left List.map unlines].
    now rewrite IH, help_line_eq, !append_assoc.
Qed.

Lemma help_all_eq w :
  MapOK (commands w) ->
  help_all w
  = (Normal match Map_keys (commands w) with
            | [] => "No commands registered."
            | names =>
                unlines ("Available commands:" :: EmptyString
                         :: List.map
                              (fun n => "  " ++ n
                                        ++ description_suffix
                                             (metadata_now w n))
                              names)
            end, w).
Proof.
  intros Hmap; unfold help_all, bind.
  rewrite (getAll_by_name w Hmap).
  destruct (Map_keys (commands w)) as [|n names]; [reflexivity|].
  cbn [List.map]; unfold ret; rewrite help_loop_eq.
  cbn [List.map]; rewrite map_map; reflexivity.
Qed.

Lemma field_line_eq help label field :
  match field with
  | Some text => if truthy text then help ++ label ++ text ++ LF else help
  | None => help
  end
  = help ++ unlines (field_line label field).
Proof.
  unfold field_line, truthy; destruct field as [text|];
    [destruct (text =? EmptyString)|]; cbn [negb unlines];
    rewrite ?append_assoc, ?append_empty_r; reflexivity.
Qed.

Lemma examples_block_eq help exs :
  match exs with
  | Some ((_ :: _) as exs) =>
      help ++ "Examples:" ++ LF
      ++ join LF (List.map (fun ex => "  " ++ ex) exs) ++ LF
  | _ => help
  end
  = help ++ unlines (examples_block exs).
Proof.
  destruct exs as [[|ex exs]|]; cbn [examples_block unlines];
    rewrite ?append_empty_r; try reflexivity.
  cbn [List.map]; now rewrite join_LF_unlines.
Qed.

Lemma help_command_eq name w :
  help_command name w
  = (Normal match Map_get name (commands w) with
            | None => "Command " ++ DQ ++ name ++ DQ ++ " not found."
            | Some command =>
                match metadata command with
                | None => "Command: " ++ name ++ LF
                          ++ "No metadata available."
                | Some md => unlines (command_lines name md)
                end
            end, w).
Proof.
  unfold help_command, bind, commands_get, ret.
  destruct (Map_get name (commands w)) as [[h [md|]]|];
    cbn [metadata]; try reflexivity.
  unfold command_lines.
  rewrite examples_block_eq, !field_line_eq, !unlines_app.
  cbn [unlines]; now rewrite !append_assoc.
Qed.

(** C7, as the code has it. [help] always completes normally with a text
    and changes nothing. For a name that is not empty: when the name is
    not registered the text says that the command of that name is not
    found; when it is registered without metadata the text names the
    command and says that no metadata is available; when it has
    metadata the text is the line of the name, the description line if
    the description is set and not empty, the usage line if the usage is
    set and not empty, and, if there is at least one example, the
    heading of the examples and each example on a line of its own,
    indented. Without a name, and for the empty name, the text is the
    fixed message when nothing is registered, and otherwise the header,
    an empty line, and one line per name of [list()], in that order, with
    the description after a dash when it is set and not empty. *)
Theorem help_renders_text (w : World) :
  MapOK (commands w) ->
  (forall name, exists text, help name w = (Normal text, w))
  /\ (forall name,
        name <> EmptyString ->
        has name w = (Normal false, w) ->
        exists text,
          help (Some name) w = (Normal text, w)
          /\ text = "Command " ++ DQ ++ name ++ DQ ++ " not found."
          /\ includes text "not found" = true
          /\ includes text name = true)
  /\ (forall name,
        name <> EmptyString ->
        has name w = (Normal true, w) ->
        getMetadata name w = (Normal None, w) ->
        exists text,
          help (Some name) w = (Normal text, w)
          /\ text = "Command: " ++ name ++ LF ++ "No metadata available."
          /\ includes text name = true)
  /\ (forall name md,
        name <> EmptyString ->
        getMetadata name w = (Normal (Some md), w) ->
        help (Some name) w
        = (Normal (unlines
             (["Command: " ++ name]
              ++ field_line "Description: " (description md)
              ++ field_line "Usage: " (usage md)
              ++ examples_block (examples md))), w))
  /\ (forall name,
        name = None \/ name = Some EmptyString ->
        list_ w = (Normal [], w) ->
        help name w = (Normal "No commands registered.", w))
  /\ (forall name names,
        name = None \/ name = Some EmptyString ->
        list_ w = (Normal names, w) ->
        names <> [] ->
        help name w
        = (Normal (unlines
             ("Available commands:" :: EmptyString
              :: List.map
                   (fun n => "  " ++ n
                             ++ description_suffix (metadata_now w n))
                   names)), w)).
Proof.
  intros Hmap.
  assert (Hall : forall name, name = None \/ name = Some EmptyString ->
                   help name w = help_all w).
  { intros name [-> | ->]; reflexivity. }
  assert (Hone : forall name, name <> EmptyString ->
                   help (Some name) w = help_command name w).
  { intros name Hne; apply truthy_true in Hne; cbn [help].
    now rewrite Hne. }
  split.
  { intros [name|];
      [destruct (String.eqb_spec name EmptyString) as [-> | Hne]|].
    - rewrite Hall, help_all_eq by auto; eauto.
    - rewrite Hone, help_command_eq by auto; eauto.
    - rewrite Hall, help_all_eq by auto; eauto. }
  split.
  { intros name Hne [= Habsent]; apply Map_get_none in Habsent.
    rewrite Hone, help_command_eq, Habsent by assumption.
    eexists; split; [reflexivity|]; split; [reflexivity|]; split.
    - do 4 apply includes_suffix; reflexivity.
    - do 2 apply includes_suffix; apply includes_prefix, includes_refl. }
  split.
  { intros name Hne [= Hpresent]; rewrite getMetadata_eq; intros [= Hmeta].
    rewrite Hone, help_command_eq by assumption.
    unfold Map_has in Hpresent.
    destruct (Map_get name (commands w)) as [command|]; [|discriminate].
    rewrite Hmeta.
    eexists; split; [reflexivity|]; split; [reflexivity|].
    apply includes_suffix, includes_prefix, includes_refl. }
  split.
  { intros name md Hne; rewrite getMetadata_eq; intros [= Hmeta].
    rewrite Hone, help_command_eq by assumption.
    destruct (Map_get name (commands w)) as [command|]; [|discriminate].
    now rewrite Hmeta. }
  split.
  { intros name Hname [= Hnames].
    now rewrite Hall, help_all_eq, Hnames by assumption. }
  intros name names Hname [= Hnames] Hne.
  rewrite Hall, help_all_eq, Hnames by assumption.
  destruct names; [congruence | reflexivity].
Qed.
End Help.

(** ** The statements on the concrete host *)

Section Concrete.
#[local] Existing Instance demoHost.
#[local] Existing Instance demoRuntime.

Lemma demo_handlers_keep_map : handlers_keep_map.
Proof.
  split.
  - intros h args w Hmap; destruct h; cbn [call demoRuntime demo_call snd];
      try assumption.
    now apply MapOK_delete.
  - intros o w Hmap; destruct o; cbn; repeat split; try assumption;
      apply MapOK_nil.
Qed.

(** [execute] runs the handler once: a registered [Count] has counted one
    call after one [execute]. *)
Example execute_counts_once :
  execute "tick" [] (snd (register "tick" Count None fresh_world))
  = (Fulfilled (VOther PUndefined),
     {| commands := [("tick", Build_CommandEntry Count None)];
        console := [];
        store := 1 |}).
Proof. reflexivity. Qed.

(** A handler that removes its own command before it throws: the registry
    after [execute] is the one the handler left, without the command. *)
Example execute_failure_keeps_handler_writes :
  execute "once" [] once_world
  = (Rejected (VError ("Error executing command " ++ DQ ++ "once" ++ DQ
                       ++ ": spent")), fresh_world).
Proof. reflexivity. Qed.

(** The code of a thrown value runs when [execute] puts the value into
    text: here its [toString] clears the registry. *)
Example execute_failure_runs_toString :
  execute "sweep" [] sweep_world
  = (Rejected (VError ("Error executing command " ++ DQ ++ "sweep" ++ DQ
                       ++ ": swept")), fresh_world).
Proof. reflexivity. Qed.

(** The value of an asynchronous handler arrives unwrapped. *)
Example execute_unwraps_promise :
  fst (execute "first" [number 7]
         (snd (register "first" AsyncFirst None fresh_world)))
  = Fulfilled (number 7).
Proof. reflexivity. Qed.

(** [calculate] of the documentation: 5 and 3 give 8. *)
Lemma register_then_has_getMetadata_execute_witness :
  has "calculate" calculate_world = (Normal true, calculate_world)
  /\ getMetadata "calculate" calculate_world
     = (Normal (Some calculate_metadata), calculate_world)
  /\ execute "calculate" [number 5; number 3]
       calculate_world
     = (Fulfilled (number 8), calculate_world).
Proof.
  destruct (@register_then_has_getMetadata_execute demoHost demoRuntime
              "calculate" Add
              (Some calculate_metadata)
              [number 5; number 3] fresh_world)
    as (_ & Hhas & Hmeta & Hexec).
  split; [exact Hhas | split; [exact Hmeta | exact Hexec]].
Defined.

(** [execute] of a name that is not registered, on a registry with two
    commands and on a fresh one. *)
Lemma execute_unregistered_name_witness :
  has "ghost" boom_world = (Normal false, boom_world)
  /\ (exists message : string,
        execute "ghost" [] boom_world = (Rejected (VError message), boom_world)
        /\ includes message "ghost" = true
        /\ includes message "not found" = true
        /\ includes message "calculate" = true
        /\ includes message "boom" = true)
  /\ exists message : string,
       execute "ghost" [] fresh_world
       = (Rejected (VError message), fresh_world)
       /\ includes message "ghost" = true
       /\ includes message "not found" = true.
Proof.
  split; [reflexivity|]; split.
  - destruct (@execute_unregistered_name demoHost demoRuntime "ghost" []
                boom_world eq_refl)
      as (message & Hexec & _ & Hname & Hwords & Hall & _).
    exists message; split; [exact Hexec|]; split; [exact Hname|].
    split; [exact Hwords|]; split; apply Hall; reflexivity.
  - destruct (@execute_unregistered_name demoHost demoRuntime "ghost" []
                fresh_world eq_refl)
      as (message & Hexec & _ & Hname & Hwords & _).
    exists message; split; [exact Hexec | split; [exact Hname | exact Hwords]].
Defined.





Lemma calculate_world_map : MapOK (commands calculate_world).
Proof. repeat constructor; simpl; tauto. Qed.

Lemma unregister_removes_exactly_witness :
  MapOK (commands calculate_world)
  /\ exists w' : World,
       unregister "calculate" calculate_world = (Normal true, w')
       /\ has "calculate" w' = (Normal false, w')
       /\ commands w' = [].
Proof.
  split; [exact calculate_world_map|].
  destruct (@unregister_removes_exactly demoHost "calculate"
              calculate_world calculate_world_map)
    as (removed & w' & Hun & Hwas & Hhas & Hcommands & _).
  assert (Hremoved : removed = true) by (now injection Hwas).
  subst removed; exists w'.
  split; [exact Hun | split; [exact Hhas | exact Hcommands]].
Defined.

Lemma calculate_world_reachable : reachable calculate_world.
Proof.
  exact (reachable_step
           (OpRegister "calculate" Add (Some calculate_metadata))
           (reachable_new 0)).
Qed.

Lemma one_entry_per_name_witness :
  handlers_keep_map
  /\ reachable calculate_world
  /\ MapOK (commands calculate_world)
  /\ exists w1 : World,
       register "calculate" Multiply None calculate_world = (Normal tt, w1)
       /\ Map_get "calculate" (commands w1)
          = Some (Build_CommandEntry Multiply None)
       /\ Map_keys (commands w1) = ["calculate"].
Proof.
  split; [exact demo_handlers_keep_map|].
  split; [exact calculate_world_reachable|].
  destruct (@one_entry_per_name demoHost demoRuntime calculate_world
              demo_handlers_keep_map calculate_world_reachable)
    as (Hmap & _ & _ & Hregister).
  split; [exact Hmap|].
  destruct (Hregister "calculate" Multiply None)
    as (w1 & Hreg & Hget & _ & _ & Hkeys & _).
  exists w1; split; [exact Hreg | split; [exact Hget | exact Hkeys]].
Defined.

Lemma math_plugin_keys : NoDup (List.map fst math_plugin).
Proof.
  repeat constructor; simpl; try tauto.
  intros [E | []]; discriminate.
Qed.

Lemma plugin_registers_composite_names_witness :
  NoDup (List.map fst math_plugin)
  /\ exists w' : World,
       plugin "math" math_plugin fresh_world = (Normal tt, w')
       /\ has "math:add" w' = (Normal true, w')
       /\ has "add" w' = (Normal false, w')
       /\ list_ w' = (Normal ["math:add"; "math:multiply"], w')
       /\ execute "math:multiply" [number 5; number 4] w'
          = (Fulfilled (number 20), w').
Proof.
  split; [exact math_plugin_keys|].
  destruct (@plugin_registers_composite_names demoHost "math" math_plugin
              fresh_world math_plugin_keys)
    as (Hplugin & Hentries & _ & Hshort & Hlist).
  eexists; split; [exact Hplugin|].
  split; [apply (Hentries "add" (@Bare demoHost Add)); now left|].
  split.
  { apply Hshort; [now left | reflexivity |].
    simpl; intros [E | [E | []]]; discriminate. }
  split; [|reflexivity].
  apply Hlist; intros shortName Hin; reflexivity.
Defined.

(** C5, as it is stated, fails: a short name of the mapping can be
    registered afterwards, because it is the composite name of another
    entry of the same mapping, or because it was registered before. *)
Lemma plugin_short_name_left_registered :
  (let commands0 := [("b", Bare Add); ("a:b", Bare Multiply)] in
   In "a:b" (List.map fst commands0)
   /\ fst (has "a:b" (snd (plugin "a" commands0 fresh_world)))
      = Normal true)
  /\ (let w := snd (register "add" Multiply None fresh_world) in
      fst (has "add" (snd (plugin "math" [("add", Bare Add)] w)))
      = Normal true).
Proof.
  split; [split; [right; now left | reflexivity] | reflexivity].
Qed.

Lemma help_renders_text_witness :
  MapOK (commands calculate_world)
  /\ help (Some "calculate") calculate_world
     = (Normal ("Command: calculate" ++ LF
                ++ "Description: Add two numbers" ++ LF
                ++ "Usage: calculate <a> <b>" ++ LF
                ++ "Examples:" ++ LF
                ++ "  calculate 5 3" ++ LF), calculate_world)
  /\ help None calculate_world
     = (Normal ("Available commands:" ++ LF ++ LF
                ++ "  calculate - Add two numbers" ++ LF), calculate_world)
  /\ exists text : string,
       help (Some "ghost") calculate_world = (Normal text, calculate_world)
       /\ includes text "not found" = true
       /\ includes text "ghost" = true.
Proof.
  split; [exact calculate_world_map|].
  destruct (@help_renders_text demoHost calculate_world
              calculate_world_map)
    as (_ & Habsent & _ & Hmeta & _ & Hall).
  split.
  { apply (Hmeta "calculate" calculate_metadata);
      [discriminate | reflexivity]. }
  split.
  { apply (Hall None ["calculate"]);
      [now left | reflexivity | discriminate]. }
  destruct (Habsent "ghost") as (text & Hhelp & _ & Hwords & Hname);
    [discriminate | reflexivity |].
  exists text; split; [exact Hhelp | split; [exact Hwords | exact Hname]].
Defined.

(** C7, as it is stated, fails: for the empty name, which is not
    registered, [help] answers as without a name and not with the text
    for a command that is not found; and a description that is set to
    the empty string gets no description line. *)
Lemma help_empty_name_and_empty_description :
  (fst (has EmptyString fresh_world) = Normal false
   /\ fst (help (Some EmptyString) fresh_world)
      = Normal "No commands registered."
   /\ includes "No commands registered." "not found" = false)
  /\ (fst (getMetadata "blank" blank_world)
      = Normal (Some blank_metadata)
      /\ fst (help (Some "blank") blank_world)
         = Normal ("Command: blank" ++ LF)
      /\ includes ("Command: blank" ++ LF) "Description" = false).
Proof. repeat split. Qed.
End Concrete.

(** * More properties of the registry *)

Section RegistryLaws.
Context `{Runtime}.

Lemma includes_trans (a b c : string) :
  includes a b = true -> includes b c = true -> includes a c = true.
Proof.
  intros Hab Hbc.
  apply includes_spec in Hab as (pre & post & ->).
  now apply includes_within.
Qed.

Lemma includes_unlines (lines : list string) (line : string) :
  In line lines -> includes (unlines lines) (line ++ LF) = true.
Proof.
  induction lines as [|l rest IH]; intros Hin; [destruct Hin|].
  cbn [unlines]; destruct Hin as [-> | Hin].
  - rewrite <- append_assoc; apply includes_prefix, includes_refl.
  - apply includes_suffix, includes_suffix, IH, Hin.
Qed.

Lemma startsWith_spec (s sub : string) :
  startsWith s sub = true <-> exists post, s = sub ++ post.
Proof.
  split; [apply startsWith_inv|].
  intros [post ->]; apply startsWith_append.
Qed.

Lemma clear_eq w : clear w = (Normal tt, with_commands [] w).
Proof. reflexivity. Qed.

Lemma perform_event_commands event w :
  commands (perform_event event w) = apply_event event (commands w).
Proof.
  destruct event; cbn [perform_event apply_event];
    [now rewrite register_commands | reflexivity | reflexivity].
Qed.

Lemma perform_event_console event w :
  console (perform_event event w)
  = (console w
     ++ match event with
        | ERegister n _ _ =>
            if Map_has n (commands w) then [overwrite_warning n] else []
        | _ => []
        end)%list.
Proof.
  destruct event as [n h md | n |]; cbn [perform_event].
  - rewrite register_eq; cbn [snd console].
    destruct (Map_has n (commands w)); [reflexivity | now rewrite app_nil_r].
  - cbn; now rewrite app_nil_r.
  - cbn; now rewrite app_nil_r.
Qed.

Lemma perform_event_store event w : store (perform_event event w) = store w.
Proof.
  destruct event; cbn [perform_event];
    [now rewrite register_eq | reflexivity | reflexivity].
Qed.

Lemma perform_event_present event w name :
  MapOK (commands w) ->
  Map_has name (commands (perform_event event w))
  = present_after event (fun n => Map_has n (commands w)) name.
Proof.
  intros Hmap; rewrite perform_event_commands; unfold present_after.
  destruct event as [n h md | n |]; cbn [apply_event].
  - rewrite Map_has_set, (String.eqb_sym name n).
    now destruct (n =? name).
  - unfold Map_has; destruct (String.eqb_spec n name) as [-> | Hne].
    + now rewrite Map_get_delete_same.
    + rewrite Map_get_delete_other by congruence; reflexivity.
  - reflexivity.
Qed.

Lemma perform_event_map event w :
  MapOK (commands w) -> MapOK (commands (perform_event event w)).
Proof.
  intros Hmap; rewrite perform_event_commands.
  destruct event; cbn [apply_event];
    auto using MapOK_set, MapOK_delete, MapOK_nil.
Qed.

Lemma plugin_events pluginName commands0 w :
  fold_left (register_entry pluginName) commands0 w
  = fold_left (fun w event => perform_event event w)
      (events_of (MPlugin pluginName commands0)) w.
Proof.
  revert w; induction commands0 as [|[s c] rest IH]; intros w.
  - reflexivity.
  - cbn [fold_left events_of List.map] in *; now rewrite IH.
Qed.

(** A history acts on the world as its events do, one after the other. *)
Lemma run_events ops w :
  run ops w = fold_left (fun w event => perform_event event w) (history ops) w.
Proof.
  unfold run, history; revert w.
  induction ops as [|op ops IH]; intros w; cbn [fold_left flat_map].
  - reflexivity.
  - rewrite IH, fold_left_app; f_equal.
    destruct op; cbn [mutate]; try reflexivity.
    rewrite plugin_eq; cbn [snd]; apply plugin_events.
Qed.

Lemma warnings_ext events (p q : string -> bool) :
  (forall n, p n = q n) -> warnings events p = warnings events q.
Proof.
  revert p q; induction events as [|event later IH]; intros p q Hpq.
  - reflexivity.
  - cbn [warnings]; f_equal.
    + destruct event; [now rewrite Hpq | reflexivity | reflexivity].
    + apply IH; intros n; unfold present_after.
      destruct event; now rewrite ?Hpq.
Qed.

Lemma events_console events w :
  MapOK (commands w) ->
  console (fold_left (fun w event => perform_event event w) events w)
  = (console w ++ warnings events (fun n => Map_has n (commands w)))%list.
Proof.
  revert w; induction events as [|event later IH]; intros w Hmap.
  - cbn; now rewrite app_nil_r.
  - cbn [fold_left warnings].
    rewrite IH by now apply perform_event_map.
    rewrite perform_event_console, <- app_assoc; do 2 f_equal.
    apply warnings_ext; intros n; now apply perform_event_present.
Qed.

Lemma events_store events w :
  store (fold_left (fun w event => perform_event event w) events w) = store w.
Proof.
  revert w; induction events as [|event later IH]; intros w; cbn [fold_left].
  - reflexivity.
  - now rewrite IH, perform_event_store.
Qed.

(** X1. [clear()] completes normally and empties the registry whatever it
    held: afterwards [list()] and [getAll()] are empty, no name is
    registered or has metadata, [help()] is the message for no commands,
    and [execute] of any name rejects as not found, with nothing after the
    colon, without running a handler. The console and the state of the
    handlers stay as they were. *)
Theorem clear_empties_registry (w : World) :
  let w' := snd (clear w) in
  clear w = (Normal tt, w')
  /\ list_ w' = (Normal [], w')
  /\ getAll w' = (Normal [], w')
  /\ (forall name, has name w' = (Normal false, w'))
  /\ (forall name, getMetadata name w' = (Normal None, w'))
  /\ help None w' = (Normal "No commands registered.", w')
  /\ (forall name args,
        execute name args w'
        = (Rejected (VError ("Command " ++ DQ ++ name ++ DQ
                             ++ " not found. Available commands: ")), w'))
  /\ console w' = console w
  /\ store w' = store w.
Proof.
  intros w'; subst w'; rewrite clear_eq; cbn [snd].
  repeat split.
Qed.

(** X2. After any sequence of [register], [plugin], [unregister] and
    [clear] on a fresh registry, the console holds exactly one warning for
    each registration of a name that was registered at that moment, in
    order and naming the command, and nothing else; the state of the
    handlers is untouched. *)
Theorem console_holds_overwrite_warnings (ops : list Mutation) (s : Store) :
  console (run ops (new_registry s))
  = warnings (history ops) (fun _ => false)
  /\ store (run ops (new_registry s)) = s.
Proof.
  rewrite run_events; split; [|apply events_store].
  rewrite events_console by apply MapOK_nil.
  reflexivity.
Qed.
End RegistryLaws.

Section Overwriting.
Context `{Runtime}.

Lemma Map_set_set (V : Type) (k : string) (v1 v2 : V) (m : Map V) :
  Map_set k v2 (Map_set k v1 m) = Map_set k v2 m.
Proof.
  induction m as [|[k' v'] rest IH]; simpl.
  - now rewrite String.eqb_refl.
  - destruct (k =? k') eqn:E; simpl; rewrite ?String.eqb_refl, ?E, ?IH;
      reflexivity.
Qed.

Lemma Map_has_cons_other (V : Type) (k k' : string) (v : V) (m : Map V) :
  k <> k' -> Map_has k ((k', v) :: m) = Map_has k m.
Proof.
  intros Hne; apply String.eqb_neq in Hne.
  unfold Map_has; simpl; now rewrite Hne.
Qed.

Lemma Map_set_comm (V : Type) (k1 k2 : string) (v1 v2 : V) (m : Map V) :
  k1 <> k2 ->
  Map_has k1 m = true \/ Map_has k2 m = true ->
  Map_set k1 v1 (Map_set k2 v2 m) = Map_set k2 v2 (Map_set k1 v1 m).
Proof.
  intros Hne; induction m as [|[k v] rest IH]; intros Hor.
  - destruct Hor; discriminate.
  - simpl.
    destruct (String.eqb_spec k2 k) as [-> | H2];
      destruct (String.eqb_spec k1 k) as [-> | H1]; simpl;
      rewrite ?String.eqb_refl.
    + congruence.
    + apply String.eqb_neq in Hne; now rewrite Hne.
    + apply not_eq_sym, String.eqb_neq in Hne; now rewrite Hne.
    + apply String.eqb_neq in H1, H2; rewrite H1, H2; f_equal.
      apply IH; apply String.eqb_neq in H1, H2.
      now rewrite !Map_has_cons_other in Hor.
Qed.

Lemma Map_keys_delete (V : Type) (k : string) (m : Map V) :
  MapOK m ->
  Map_keys (Map_delete k m) = filter (fun n => negb (n =? k)) (Map_keys m).
Proof.
  intros Hmap; rewrite Map_delete_filter by assumption.
  unfold Map_keys; induction m as [|[k' v'] rest IH]; simpl.
  - reflexivity.
  - inversion Hmap; subst.
    destruct (k' =? k); simpl; now rewrite IH.
Qed.

(** X3. Registering a name again overwrites whatever the earlier
    registration stored: the map after the two registrations is the map
    after the second alone. The second registration always prints the
    warning that names the command. *)
Theorem register_twice_is_register_last
    (name : string) (h1 h2 : Handler) (m1 m2 : option CommandMetadata)
    (w : World) :
  let w1 := snd (register name h1 m1 w) in
  let w2 := snd (register name h2 m2 w1) in
  commands w2 = commands (snd (register name h2 m2 w))
  /\ console w2 = (console w1 ++ [overwrite_warning name])%list
  /\ store w2 = store w.
Proof.
  intros w1 w2; subst w1 w2.
  rewrite !register_eq; cbn [snd commands console store].
  rewrite Map_set_set, Map_has_set, String.eqb_refl; auto.
Qed.

(** X4. Registrations of two different names can be swapped: either order
    gives every name the same entry, and when at least one of the two
    names is registered already, the same map, order included. When both
    are new they go last in the order in which they were registered. *)
Theorem register_different_names_commute
    (n1 n2 : string) (h1 h2 : Handler) (m1 m2 : option CommandMetadata)
    (w : World) :
  n1 <> n2 ->
  let w12 := snd (register n2 h2 m2 (snd (register n1 h1 m1 w))) in
  let w21 := snd (register n1 h1 m1 (snd (register n2 h2 m2 w))) in
  (forall name, Map_get name (commands w12) = Map_get name (commands w21))
  /\ (Map_has n1 (commands w) = true \/ Map_has n2 (commands w) = true ->
      commands w12 = commands w21)
  /\ (Map_has n1 (commands w) = false -> Map_has n2 (commands w) = false ->
      Map_keys (commands w12) = (Map_keys (commands w) ++ [n1; n2])%list
      /\ Map_keys (commands w21) = (Map_keys (commands w) ++ [n2; n1])%list).
Proof.
  intros Hne w12 w21; subst w12 w21; rewrite !register_commands.
  split; [|split].
  - intros name.
    destruct (String.eqb_spec name n2) as [-> | Hn2].
    + rewrite Map_get_set_same, Map_get_set_other, Map_get_set_same; auto.
    + rewrite (Map_get_set_other _ _ Hn2).
      destruct (String.eqb_spec name n1) as [-> | Hn1].
      * now rewrite !Map_get_set_same.
      * now rewrite !Map_get_set_other.
  - intros Hor; symmetry; now apply Map_set_comm.
  - intros Ha1 Ha2.
    apply String.eqb_neq in Hne as Hne1.
    apply not_eq_sym, String.eqb_neq in Hne as Hne2.
    rewrite !Map_keys_set, !Map_has_set, Ha1, Ha2, Hne1, Hne2; cbn [orb].
    now rewrite <- !app_assoc.
Qed.

(** X5. On a registry whose map holds each name once, removing a
    registered name and registering it anew moves it to the end of
    [list()], the other names keeping their order, and prints no warning;
    registering it directly leaves [list()] as it is and prints the
    warning. *)
Theorem unregister_then_register_moves_last
    (name : string) (h : Handler) (m : option CommandMetadata) (w : World) :
  MapOK (commands w) ->
  has name w = (Normal true, w) ->
  let moved := snd (register name h m (snd (unregister name w))) in
  let kept := snd (register name h m w) in
  fst (list_ moved)
  = Normal (filter (fun n => negb (n =? name)) (Map_keys (commands w))
            ++ [name])%list
  /\ console moved = console w
  /\ fst (list_ kept) = Normal (Map_keys (commands w))
  /\ console kept = (console w ++ [overwrite_warning name])%list
  /\ Map_get name (commands moved) = Map_get name (commands kept).
Proof.
  intros Hmap [= Hpresent] moved kept; subst moved kept.
  rewrite unregister_eq, !register_eq; cbn [snd fst list_ commands_keys].
  cbn [commands console with_commands].
  assert (Hgone : Map_has name (Map_delete name (commands w)) = false).
  { unfold Map_has; now rewrite Map_get_delete_same. }
  rewrite !Map_keys_set, Hgone, Hpresent, Map_keys_delete by assumption.
  rewrite !Map_get_set_same; auto.
Qed.
End Overwriting.

Section Reporting.
Context `{Runtime}.

(** X6. When [execute] rejects: for a name that is not registered the
    reason is an [Error] whose message starts with the words for a command
    that is not found, no handler has run and the world is as it was; for
    a registered name the handler failed, and the reason is either an
    [Error] whose message is the words for an error in the command, the
    name and the text of the failure, or, when putting the failure into
    text threw, what was thrown there. A message of the first kind never
    starts like one of the second, nor the other way round. *)
Theorem execute_rejections_tell_apart
    (name : string) (args : list Value) (w : World) (reason : Value) :
  fst (execute name args w) = Rejected reason ->
  (has name w = (Normal false, w)
   /\ snd (execute name args w) = w
   /\ exists message : string,
        reason = VError message
        /\ startsWith message ("Command " ++ DQ ++ name ++ DQ ++ " not found.")
           = true
        /\ startsWith message "Error executing command " = false)
  \/ (has name w = (Normal true, w)
      /\ exists (command : CommandEntry) (error : Value),
           Map_get name (commands w) = Some command
           /\ await (fst (call (handler command) args w)) = Rejected error
           /\ ((exists text : string,
                  fst (error_text error (snd (call (handler command) args w)))
                  = Normal text
                  /\ reason
                     = VError ("Error executing command " ++ DQ ++ name
                               ++ DQ ++ ": " ++ text)
                  /\ startsWith
                       ("Error executing command " ++ DQ ++ name ++ DQ
                        ++ ": " ++ text) "Command " = false)
               \/ fst (error_text error (snd (call (handler command) args w)))
                  = Throw reason)).
Proof.
  intros Hrej; rewrite has_eq; unfold Map_has.
  destruct (Map_get name (commands w)) as [command|] eqn:Hget.
  - right; split; [reflexivity|].
    rewrite (execute_found _ _ _ Hget) in Hrej.
    destruct (await (fst (call (handler command) args w)))
      as [v | error |] eqn:Hawait; try discriminate.
    exists command, error; split; [reflexivity|]; split; [exact Hawait|].
    destruct (error_text error (snd (call (handler command) args w)))
      as [[text | v] w'']; cbn [fst] in *; injection Hrej as <-.
    + left; exists text; repeat split.
    + now right.
  - left; unfold execute in *; rewrite Hget in *; cbn in Hrej.
    injection Hrej as <-; split; [reflexivity|]; split; [reflexivity|].
    eexists; split; [reflexivity|]; split; [|reflexivity].
    apply startsWith_spec.
    exists (" Available commands: " ++ join ", " (Map_keys (commands w))).
    now rewrite !append_assoc.
Qed.

(** X7. On a registry whose map holds each name once, the overview
    [help()] has a line for every registered name: the name indented, and
    after it the description behind a dash when the command has a
    description that is not empty. *)
Theorem help_overview_lists_every_command (name : string) (w : World) :
  MapOK (commands w) ->
  has name w = (Normal true, w) ->
  exists text : string,
    help None w = (Normal text, w)
    /\ includes text ("  " ++ name) = true
    /\ forall md d,
         getMetadata name w = (Normal (Some md), w) ->
         description md = Some d ->
         d <> EmptyString ->
         includes text ("  " ++ name ++ " - " ++ d ++ LF) = true.
Proof.
  intros Hmap [= Hpresent].
  cbn [help]; rewrite help_all_eq by assumption.
  apply Map_has_In in Hpresent.
  destruct (Map_keys (commands w)) as [|n names] eqn:Hkeys;
    [destruct Hpresent|].
  rewrite <- Hkeys in *; clear Hkeys n names.
  eexists; split; [reflexivity|].
  assert (Hline : includes
                    (unlines
                       ("Available commands:" :: EmptyString
                        :: List.map
                             (fun n => "  " ++ n
                                       ++ description_suffix
                                            (metadata_now w n))
                             (Map_keys (commands w))))
                    (("  " ++ name
                      ++ description_suffix (metadata_now w name)) ++ LF)
                  = true).
  { apply includes_unlines; do 2 right.
    now apply (in_map (fun n => "  " ++ n
                                 ++ description_suffix (metadata_now w n))). }
  split.
  - eapply includes_trans; [exact Hline|].
    rewrite !append_assoc.
    apply (includes_within EmptyString ("  " ++ name) _), includes_refl.
  - intros md d; rewrite getMetadata_eq; intros [= Hmeta] Hd Hne.
    unfold metadata_now, description_suffix in Hline.
    rewrite Hmeta, Hd in Hline.
    apply String.eqb_neq in Hne; rewrite Hne in Hline.
    now rewrite !append_assoc in Hline.
Qed.

(** X8. For a name that is not empty and has metadata, the text of
    [help(name)] starts with the line of the name and holds, each on a
    line of its own, the description and the usage when they are set and
    not empty, and every example, indented. *)
Theorem help_command_shows_metadata
    (name : string) (md : CommandMetadata) (w : World) :
  name <> EmptyString ->
  getMetadata name w = (Normal (Some md), w) ->
  exists text : string,
    help (Some name) w = (Normal text, w)
    /\ startsWith text ("Command: " ++ name ++ LF) = true
    /\ (forall d, description md = Some d -> d <> EmptyString ->
          includes text ("Description: " ++ d ++ LF) = true)
    /\ (forall u, usage md = Some u -> u <> EmptyString ->
          includes text ("Usage: " ++ u ++ LF) = true)
    /\ (forall exs ex, examples md = Some exs -> In ex exs ->
          includes text ("Examples:" ++ LF) = true
          /\ includes text ("  " ++ ex ++ LF) = true).
Proof.
  intros Hname; rewrite getMetadata_eq; intros [= Hmeta].
  apply truthy_true in Hname; cbn [help]; rewrite Hname, help_command_eq.
  destruct (Map_get name (commands w)) as [command|]; [|discriminate].
  rewrite Hmeta; eexists; split; [reflexivity|].
  assert (Hin : forall line, In line (command_lines name md) ->
                  includes (unlines (command_lines name md)) (line ++ LF)
                  = true)
    by (intros line; apply includes_unlines).
  split; [|split; [|split]].
  - cbn [command_lines unlines app]; rewrite <- !append_assoc.
    apply startsWith_append.
  - intros d Hd Hne; rewrite <- append_assoc; apply Hin.
    unfold command_lines, field_line; rewrite Hd.
    apply String.eqb_neq in Hne; rewrite Hne.
    apply in_or_app; right; apply in_or_app; left; now left.
  - intros u Hu Hne; rewrite <- append_assoc; apply Hin.
    unfold command_lines, field_line at 2; rewrite Hu.
    apply String.eqb_neq in Hne; rewrite Hne.
    apply in_or_app; right; apply in_or_app; right.
    apply in_or_app; left; now left.
  - intros exs ex Hexs Hex.
    assert (Hblock : forall line, In line (examples_block (examples md)) ->
                       In line (command_lines name md)).
    { intros line Hl; unfold command_lines.
      apply in_or_app; right; apply in_or_app; right.
      apply in_or_app; now right. }
    unfold examples_block in Hblock; rewrite Hexs in Hblock.
    destruct exs as [|e exs]; [destruct Hex|].
    split.
    + apply Hin, Hblock; now left.
    + rewrite <- append_assoc; apply Hin, Hblock; right.
      now apply (in_map (fun ex => "  " ++ ex)).
Qed.
End Reporting.

(** * Properties of the runtime namespace *)

Section RuntimeFacts.
Implicit Types (process : option Process) (key : string).

Lemma isBun_not_isNode process : isBun process = true -> isNode process = false.
Proof.
  unfold isNode; intros Hbun; destruct process as [p|]; [|reflexivity].
  rewrite Hbun; apply andb_false_r.
Qed.

(** X9. The two runtime tests never hold together, a missing [process] is
    neither runtime, and [getRuntime] names the runtime the tests find:
    [bun] exactly when [isBun] holds, also when the process lists a
    Node.js version too, [node] exactly when [isNode] holds, and [unknown]
    exactly when neither does. *)
Theorem getRuntime_follows_tests process :
  (isBun process && isNode process = false)
  /\ (process = None -> isBun process = false /\ isNode process = false)
  /\ (getRuntime process = "bun" <-> isBun process = true)
  /\ (getRuntime process = "node" <-> isNode process = true)
  /\ (getRuntime process = "unknown"
      <-> isBun process = false /\ isNode process = false).
Proof.
  assert (Hnone : process = None ->
                  isBun process = false /\ isNode process = false)
    by (intros ->; split; reflexivity).
  unfold getRuntime.
  destruct (isBun process) eqn:Hbun.
  - rewrite (isBun_not_isNode _ Hbun) in *.
    intuition (try discriminate; try reflexivity).
  - destruct (isNode process) eqn:Hnode;
      intuition (try discriminate; try reflexivity).
Qed.

(** X10. When [getRuntimeInfo] reports a version, the runtime it reports is
    not [unknown], and the version is the text, not empty, that
    [process.versions] lists under the name of that runtime; [platform]
    and [arch] are those of the process. *)
Theorem getRuntimeInfo_version_of_runtime process (v : string) :
  version (getRuntimeInfo process) = Some v ->
  exists p : Process,
    process = Some p
    /\ runtime (getRuntimeInfo process) <> "unknown"
    /\ versions_get (runtime (getRuntimeInfo process)) p = Some v
    /\ v <> EmptyString
    /\ platform (getRuntimeInfo process) = process_platform p
    /\ arch (getRuntimeInfo process) = process_arch p.
Proof.
  unfold getRuntimeInfo, getRuntime; cbn [version runtime platform arch].
  destruct process as [p|]; [|now destruct (isBun None)].
  intros Hv; exists p; split; [reflexivity|].
  destruct (isBun (Some p)) eqn:Hbun.
  - unfold getBunVersion in Hv; rewrite Hbun in Hv; cbn [andb] in Hv.
    destruct (versions_get "bun" p) as [b|] eqn:Hb; [|discriminate].
    cbn [truthy_opt] in Hv; destruct (truthy b) eqn:Ht; [|discriminate].
    injection Hv as <-; apply truthy_true in Ht.
    repeat split; [discriminate | assumption..].
  - unfold getNodeVersion in Hv.
    destruct (isNode (Some p)) eqn:Hnode; [|discriminate].
    cbn [andb] in Hv.
    destruct (versions_get "node" p) as [n|] eqn:Hn; [|discriminate].
    cbn [truthy_opt] in Hv; destruct (truthy n) eqn:Ht; [|discriminate].
    injection Hv as <-; apply truthy_true in Ht.
    repeat split; [discriminate | assumption..].
Qed.

(** X11. [getBunVersion] and [getNodeVersion] never both return a
    version: the first answers only under Bun and the second only under
    Node.js. *)
Theorem versions_of_one_runtime process :
  (getBunVersion process = None \/ getNodeVersion process = None)
  /\ (getBunVersion process <> None -> isBun process = true)
  /\ (getNodeVersion process <> None -> isNode process = true).
Proof.
  unfold getBunVersion, getNodeVersion.
  destruct process as [p|]; [|repeat split; auto; congruence].
  destruct (isBun (Some p)) eqn:Hbun.
  - rewrite (isBun_not_isNode _ Hbun); cbn [andb].
    repeat split; auto; congruence.
  - cbn [andb]; repeat split; auto; try congruence.
    destruct (isNode (Some p)); [reflexivity | cbn; congruence].
Qed.

(** The three ways in which [process.env] has nothing under a key. *)
Lemma getEnv_missing process key (defaultValue : option string) :
  process = None
  \/ (exists p, process = Some p /\ process_env p = None)
  \/ (exists p env,
        process = Some p /\ process_env p = Some env
        /\ Map_get key (env_own env) = None
        /\ ~ In key (env_inherited env)) ->
  getEnv process key defaultValue = option_map EnvString defaultValue.
Proof.
  intros [-> | [(p & -> & Henv) | (p & env & -> & Henv & Hown & Hnot)]];
    cbn [getEnv]; rewrite ?Henv; try reflexivity.
  unfold env_get; rewrite Hown.
  destruct (existsb (String.eqb key) (env_inherited env)) eqn:Hex;
    [|reflexivity].
  apply existsb_exists in Hex as (k & Hin & Hk).
  apply String.eqb_eq in Hk; subst k; contradiction.
Qed.

Lemma getEnv_own p env key value (defaultValue : option string) :
  process_env p = Some env ->
  Map_get key (env_own env) = Some value ->
  getEnv (Some p) key defaultValue = Some (EnvString value).
Proof.
  intros Henv Hown; cbn [getEnv]; rewrite Henv.
  unfold env_get; now rewrite Hown.
Qed.

Lemma getEnv_inherited p env key (defaultValue : option string) :
  process_env p = Some env ->
  Map_get key (env_own env) = None ->
  In key (env_inherited env) ->
  getEnv (Some p) key defaultValue = Some (EnvMember key).
Proof.
  intros Henv Hown Hin; cbn [getEnv]; rewrite Henv.
  unfold env_get; rewrite Hown.
  assert (Hex : existsb (String.eqb key) (env_inherited env) = true).
  { apply existsb_exists; exists key; split; [assumption|].
    apply String.eqb_refl. }
  now rewrite Hex.
Qed.

(** X12. When [process.env] has a variable of its own under the key,
    whatever string it holds, the empty one included, [getRequiredEnv]
    returns that string and [getEnv] returns it whatever the default.
    When [process.env] only inherits the key, both return the inherited
    member. When there is no [process], no [process.env], or nothing
    under the key, [getEnv] returns its default and [getRequiredEnv]
    throws an [Error] whose message names the key. *)
Theorem getRequiredEnv_throws_when_getEnv_defaults process key :
  (forall p env value,
     process = Some p ->
     process_env p = Some env ->
     Map_get key (env_own env) = Some value ->
     getRequiredEnv process key = Returns (EnvString value)
     /\ forall defaultValue,
          getEnv process key defaultValue = Some (EnvString value))
  /\ (forall p env,
        process = Some p ->
        process_env p = Some env ->
        Map_get key (env_own env) = None ->
        In key (env_inherited env) ->
        getRequiredEnv process key = Returns (EnvMember key)
        /\ forall defaultValue,
             getEnv process key defaultValue = Some (EnvMember key))
  /\ (process = None
      \/ (exists p, process = Some p /\ process_env p = None)
      \/ (exists p env,
            process = Some p /\ process_env p = Some env
            /\ Map_get key (env_own env) = None
            /\ ~ In key (env_inherited env)) ->
      getRequiredEnv process key
      = Throws ("Required environment variable " ++ key ++ " is not set")
      /\ includes ("Required environment variable " ++ key ++ " is not set")
           key = true
      /\ forall defaultValue,
           getEnv process key defaultValue
           = option_map EnvString defaultValue).
Proof.
  split; [|split].
  - intros p env value -> Henv Hown; unfold getRequiredEnv.
    erewrite getEnv_own by eassumption; split; [reflexivity|].
    intros d; now apply getEnv_own with (env := env).
  - intros p env -> Henv Hown Hin; unfold getRequiredEnv.
    erewrite getEnv_inherited by eassumption; split; [reflexivity|].
    intros d; now apply getEnv_inherited with (env := env).
  - intros Hmissing; unfold getRequiredEnv.
    rewrite getEnv_missing by assumption; cbn [option_map].
    split; [reflexivity|]; split.
    + exact (includes_here "Required environment variable " key
               " is not set").
    + intros d; now apply getEnv_missing.
Qed.

(** X13. At most one of [isDevelopment], [isProduction] and [isTest]
    holds. When [process.env] has a [NODE_ENV] of its own, each of the
    three holds exactly when the variable is the name of its mode, so none
    holds for any other value. Without a [process], without
    [process.env], or without [NODE_ENV], the mode is development. *)
Theorem modes_exclude_each_other process :
  (isDevelopment process && isProduction process = false)
  /\ (isDevelopment process && isTest process = false)
  /\ (isProduction process && isTest process = false)
  /\ (forall p env mode,
        process = Some p ->
        process_env p = Some env ->
        Map_get "NODE_ENV" (env_own env) = Some mode ->
        isDevelopment process = (mode =? "development")
        /\ isProduction process = (mode =? "production")
        /\ isTest process = (mode =? "test"))
  /\ (process = None
      \/ (exists p, process = Some p /\ process_env p = None)
      \/ (exists p env,
            process = Some p /\ process_env p = Some env
            /\ Map_get "NODE_ENV" (env_own env) = None
            /\ ~ In "NODE_ENV" (env_inherited env)) ->
      isDevelopment process = true
      /\ isProduction process = false
      /\ isTest process = false).
Proof.
  unfold isDevelopment, isProduction, isTest.
  split; [|split; [|split; [|split]]].
  1-3: destruct (getEnv process "NODE_ENV" (Some "development"))
         as [[mode | member]|]; cbn [strict_equal]; try reflexivity;
       destruct (String.eqb_spec mode "development") as [-> | Hd];
       try reflexivity;
       destruct (String.eqb_spec mode "production") as [-> | Hp];
       reflexivity.
  - intros p env mode -> Henv Hown.
    erewrite getEnv_own by eassumption; auto.
  - intros Hmissing.
    rewrite getEnv_missing by assumption; auto.
Qed.

(** X14. [ifBun] and [ifNode] never both call their functions: under Bun
    only [ifBun] calls, and returns what its function returns; under
    Node.js only [ifNode]; elsewhere neither calls, both return their
    fallback and the state of the closures is untouched. *)
Theorem ifBun_ifNode_call_at_most_one
    (C T U : Type) process (fn : C -> T * C) (gn : C -> U * C)
    (fallbackT : option T) (fallbackU : option U) (s : C) :
  (isBun process = true ->
   ifBun process fn fallbackT s = (Some (fst (fn s)), snd (fn s))
   /\ ifNode process gn fallbackU s = (fallbackU, s))
  /\ (isNode process = true ->
      ifNode process gn fallbackU s = (Some (fst (gn s)), snd (gn s))
      /\ ifBun process fn fallbackT s = (fallbackT, s))
  /\ (isBun process = false -> isNode process = false ->
      ifBun process fn fallbackT s = (fallbackT, s)
      /\ ifNode process gn fallbackU s = (fallbackU, s)).
Proof.
  unfold ifBun, ifNode.
  destruct (isBun process) eqn:Hbun.
  - rewrite (isBun_not_isNode _ Hbun).
    destruct (fn s); repeat split; discriminate.
  - destruct (isNode process); destruct (gn s);
      repeat split; discriminate.
Qed.
End RuntimeFacts.

(** * Properties of the search parameters *)

Section SearchFacts.

End SearchFacts.

(** * Installing a plugin again *)

Section PluginAgain.
Context `{Runtime}.

Lemma Map_set_same (V : Type) (k : string) (v : V) (m : Map V) :
  Map_get k m = Some v -> Map_set k v m = m.
Proof.
  induction m as [|[k' v'] rest IH]; simpl; [discriminate|].
  destruct (String.eqb_spec k k') as [-> | Hne].
  - now intros [= ->].
  - intros Hget; now rewrite IH.
Qed.

Lemma plugin_again pluginName (commands0 : CommandPlugin) (w : World) :
  (forall shortName command,
     In (shortName, command) commands0 ->
     Map_get (composite pluginName shortName) (commands w)
     = Some (Build_CommandEntry (handler_of command) (metadata_of command))) ->
  commands (fold_left (register_entry pluginName) commands0 w) = commands w
  /\ console (fold_left (register_entry pluginName) commands0 w)
     = (console w
        ++ List.map (fun shortName =>
                       overwrite_warning (composite pluginName shortName))
             (List.map fst commands0))%list.
Proof.
  revert w; induction commands0 as [|[s c] rest IH]; intros w Hall.
  - cbn; now rewrite app_nil_r.
  - cbn [fold_left List.map fst].
    assert (Hhere : Map_get (composite pluginName s) (commands w)
                    = Some (Build_CommandEntry (handler_of c)
                              (metadata_of c)))
      by (apply Hall; now left).
    assert (Hstep : commands (register_entry pluginName w (s, c)) = commands w
                    /\ console (register_entry pluginName w (s, c))
                       = (console w
                          ++ [overwrite_warning
                                (composite pluginName s)])%list).
    { unfold register_entry; rewrite register_eq.
      cbn [snd fst commands console].
      unfold Map_has; rewrite Hhere; split; [|reflexivity].
      now apply Map_set_same. }
    destruct Hstep as [Hcommands Hconsole].
    destruct (IH (register_entry pluginName w (s, c))) as [IHc IHo].
    { intros s' c' Hin; rewrite Hcommands; apply Hall; now right. }
    rewrite IHc, IHo, Hcommands, Hconsole, <- app_assoc; auto.
Qed.

(** X16. Installing the same plugin a second time, under the same name and
    with a mapping that holds each short name once, changes no entry and
    no position, whatever the registry held before the first
    installation; it prints one warning for each command of the plugin, in
    the order of the mapping. *)
Theorem plugin_twice_only_warns
    (pluginName : string) (commands0 : CommandPlugin) (w : World) :
  NoDup (List.map fst commands0) ->
  let w1 := snd (plugin pluginName commands0 w) in
  let w2 := snd (plugin pluginName commands0 w1) in
  commands w2 = commands w1
  /\ console w2
     = (console w1
        ++ List.map (fun shortName =>
                       overwrite_warning (composite pluginName shortName))
             (List.map fst commands0))%list
  /\ store w2 = store w1.
Proof.
  intros Hnodup w1 w2; subst w1 w2.
  rewrite !plugin_eq; cbn [snd].
  destruct (plugin_again pluginName commands0
              (fold_left (register_entry pluginName) commands0 w))
    as [Hcommands Hconsole].
  { intros shortName command Hin; now apply plugin_entry_registered. }
  split; [assumption | split; [assumption|]].
  rewrite !plugin_events, !events_store; reflexivity.
Qed.
End PluginAgain.

(** * The further statements on concrete inputs *)

Section MoreConcrete.
#[local] Existing Instance demoHost.
#[local] Existing Instance demoRuntime.

Lemma register_different_names_commute_witness :
  "boom" <> "calculate"
  /\ commands (snd (register "calculate" Multiply None
                      (snd (register "boom" Never None calculate_world))))
     = commands (snd (register "boom" Never None
                        (snd (register "calculate" Multiply None
                                calculate_world)))).
Proof.
  assert (Hne : "boom" <> "calculate") by discriminate.
  split; [exact Hne|].
  destruct (@register_different_names_commute demoHost "boom" "calculate"
              Never Multiply None None calculate_world Hne)
    as (_ & Hsame & _).
  apply Hsame; now right.
Defined.

Lemma unregister_then_register_moves_last_witness :
  MapOK (commands boom_world)
  /\ has "calculate" boom_world = (Normal true, boom_world)
  /\ fst (list_ boom_world) = Normal ["calculate"; "boom"]
  /\ fst (list_ (snd (register "calculate" Add None
                        (snd (unregister "calculate" boom_world)))))
     = Normal ["boom"; "calculate"].
Proof.
  assert (Hmap : MapOK (commands boom_world)).
  { repeat constructor; simpl; try tauto.
    intros [E | []]; discriminate. }
  split; [exact Hmap|]; split; [reflexivity|]; split; [reflexivity|].
  destruct (@unregister_then_register_moves_last demoHost "calculate" Add
              None boom_world Hmap eq_refl) as (Hmoved & _).
  exact Hmoved.
Defined.

Lemma execute_rejections_tell_apart_witness :
  fst (execute "boom" [] boom_world)
  = Rejected (VError ("Error executing command " ++ DQ ++ "boom" ++ DQ
                      ++ ": out of cheese"))
  /\ has "boom" boom_world = (Normal true, boom_world)
  /\ fst (error_text (VError "out of cheese") boom_world)
     = Normal "out of cheese".
Proof.
  split; [reflexivity|].
  destruct (@execute_rejections_tell_apart demoHost demoRuntime "boom" []
              boom_world _ eq_refl)
    as [(Habsent & _) | (Hpresent & _)].
  - discriminate Habsent.
  - split; [exact Hpresent | reflexivity].
Defined.

Lemma help_overview_lists_every_command_witness :
  MapOK (commands calculate_world)
  /\ has "calculate" calculate_world = (Normal true, calculate_world)
  /\ exists text : string,
       help None calculate_world = (Normal text, calculate_world)
       /\ includes text "  calculate" = true
       /\ includes text ("  calculate - Add two numbers" ++ LF) = true.
Proof.
  split; [exact calculate_world_map|]; split; [reflexivity|].
  destruct (@help_overview_lists_every_command demoHost "calculate"
              calculate_world calculate_world_map eq_refl)
    as (text & Hhelp & Hname & Hdescribed).
  exists text; split; [exact Hhelp|]; split; [exact Hname|].
  apply (Hdescribed calculate_metadata "Add two numbers");
    [reflexivity | reflexivity | discriminate].
Defined.

Lemma help_command_shows_metadata_witness :
  "calculate" <> EmptyString
  /\ getMetadata "calculate" calculate_world
     = (Normal (Some calculate_metadata), calculate_world)
  /\ exists text : string,
       help (Some "calculate") calculate_world = (Normal text, calculate_world)
       /\ includes text ("Usage: calculate <a> <b>" ++ LF) = true
       /\ includes text ("  calculate 5 3" ++ LF) = true.
Proof.
  assert (Hne : "calculate" <> EmptyString) by discriminate.
  split; [exact Hne|]; split; [reflexivity|].
  destruct (@help_command_shows_metadata demoHost "calculate"
              calculate_metadata calculate_world Hne eq_refl)
    as (text & Hhelp & _ & _ & Husage & Hexamples).
  exists text; split; [exact Hhelp|]; split.
  - apply (Husage "calculate <a> <b>"); [reflexivity | discriminate].
  - apply (Hexamples ["calculate 5 3"] "calculate 5 3");
      [reflexivity | now left].
Defined.

Lemma getRuntimeInfo_version_of_runtime_witness :
  version (getRuntimeInfo (Some bun_process)) = Some "1.1.30"
  /\ runtime (getRuntimeInfo (Some bun_process)) <> "unknown"
  /\ versions_get (runtime (getRuntimeInfo (Some bun_process))) bun_process
     = Some "1.1.30".
Proof.
  split; [reflexivity|].
  destruct (getRuntimeInfo_version_of_runtime (Some bun_process) eq_refl)
    as (p & Hp & Hknown & Hversion & _).
  injection Hp as <-.
  split; [exact Hknown | exact Hversion].
Defined.

Lemma plugin_twice_only_warns_witness :
  NoDup (List.map fst math_plugin)
  /\ console (snd (plugin "math" math_plugin
                     (snd (plugin "math" math_plugin fresh_world))))
     = [overwrite_warning "math:add"; overwrite_warning "math:multiply"].
Proof.
  split; [exact math_plugin_keys|].
  destruct (@plugin_twice_only_warns demoHost "math" math_plugin fresh_world
              math_plugin_keys) as (_ & Hconsole & _).
  exact Hconsole.
Defined.

(** On the Bun process, the variable [EMPTY] is set to the empty string
    and [toString] is only inherited. *)
Lemma getRequiredEnv_throws_when_getEnv_defaults_witness :
  option_map env_own (process_env bun_process)
  = Some [("NODE_ENV", "production"); ("EMPTY", EmptyString)]
  /\ getRequiredEnv (Some bun_process) "EMPTY" = Returns (EnvString EmptyString)
  /\ getEnv (Some bun_process) "EMPTY" (Some "fallback")
     = Some (EnvString EmptyString)
  /\ getRequiredEnv (Some bun_process) "toString"
     = Returns (EnvMember "toString")
  /\ getRequiredEnv (Some bun_process) "HOME"
     = Throws "Required environment variable HOME is not set"
  /\ getEnv None "HOME" (Some "/") = Some (EnvString "/").
Proof.
  split; [reflexivity|].
  destruct (getRequiredEnv_throws_when_getEnv_defaults (Some bun_process)
              "EMPTY") as (Hown & _).
  destruct (Hown bun_process _ EmptyString eq_refl eq_refl eq_refl)
    as (Hrequired & Hget).
  split; [exact Hrequired|]; split; [exact (Hget (Some "fallback"))|].
  destruct (getRequiredEnv_throws_when_getEnv_defaults (Some bun_process)
              "toString") as (_ & Hinherited & _).
  destruct (Hinherited bun_process _ eq_refl eq_refl eq_refl)
    as (Hmember & _).
  { cbn; tauto. }
  split; [exact Hmember|].
  destruct (getRequiredEnv_throws_when_getEnv_defaults (Some bun_process)
              "HOME") as (_ & _ & Hmissing).
  destruct Hmissing as (Hthrows & _).
  { right; right; eexists; eexists.
    split; [reflexivity|]; split; [reflexivity|]; split; [reflexivity|].
    cbn; intuition discriminate. }
  split; [exact Hthrows|].
  destruct (getRequiredEnv_throws_when_getEnv_defaults None "HOME")
    as (_ & _ & Hnone).
  destruct Hnone as (_ & _ & Hdefault); [now left|].
  exact (Hdefault (Some "/")).
Defined.

(** The Bun process runs in production; the Node.js process has no
    [NODE_ENV] and runs in development. *)
Lemma modes_exclude_each_other_witness :
  isProduction (Some bun_process) = true
  /\ isDevelopment (Some bun_process) = false
  /\ isTest (Some bun_process) = false
  /\ isDevelopment (Some node_process) = true
  /\ isProduction (Some node_process) = false.
Proof.
  destruct (modes_exclude_each_other (Some bun_process))
    as (_ & _ & _ & Hmode & _).
  destruct (Hmode bun_process _ "production" eq_refl eq_refl eq_refl)
    as (Hdev & Hprod & Htest).
  split; [exact Hprod|]; split; [exact Hdev|]; split; [exact Htest|].
  destruct (modes_exclude_each_other (Some node_process))
    as (_ & _ & _ & _ & Hmissing).
  destruct Hmissing as (Hdev' & Hprod' & _).
  { right; right; eexists; eexists.
    split; [reflexivity|]; split; [reflexivity|]; split; [reflexivity|].
    cbn; intuition discriminate. }
  split; [exact Hdev' | exact Hprod'].
Defined.

(** A Bun process lists a Node.js version and is still Bun. *)
Example runtime_of_concrete_processes :
  getRuntime (Some bun_process) = "bun"
  /\ getNodeVersion (Some bun_process) = None
  /\ getRuntime (Some node_process) = "node"
  /\ getRuntime None = "unknown".
Proof. repeat split. Qed.
End MoreConcrete.
